(** * Image-QR-weblink: the similarity-matching core of [backend/server.py]

  A shallow embedding of [ImageProcessor.calculate_similarity],
  [ImageProcessor.validate_and_process_image], [link_image_to_url],
  [scan_image_for_url], [get_stored_images] and [delete_stored_image],
  with the MongoDB collection [db.image_links] as an explicit state.

  Python [str] values are [string]s whose characters are [ascii] code
  points; code points above 127 are outside the model.  Python [int] is
  [Z].  The libraries the server calls (python-magic, PIL, imagehash,
  hashlib, uuid, datetime) are the fields of a class of externals. *)

From Stdlib Require Import ZArith Lia Ascii String.
From stdpp Require Import base list strings gmap pretty.

Local Open Scope Z_scope.

(** ** Python built-ins used by [calculate_similarity] *)

Module Py.

(** The characters of a [str], in order. *)
Definition chars (s : string) : list ascii := String.list_ascii_of_string s.

Definition code (c : ascii) : Z := Z.of_N (N_of_ascii c).

(** [Py_ISSPACE]: space, [\t], [\n], [\v], [\f], [\r]. *)
Definition Py_ISSPACE (c : ascii) : bool :=
  (code c =? 32) || ((9 <=? code c) && (code c <=? 13)).

(** [_PyLong_DigitValue]: [0-9] are 0..9, [a-z] and [A-Z] are 10..35;
    every other character has no digit value. *)
Definition digit_value (c : ascii) : option Z :=
  let n := code c in
  if (48 <=? n) && (n <=? 57) then Some (n - 48)
  else if (97 <=? n) && (n <=? 122) then Some (n - 97 + 10)
  else if (65 <=? n) && (n <=? 90) then Some (n - 65 + 10)
  else None.

(** A digit of base 16. *)
Definition hex_digit (c : ascii) : option Z :=
  match digit_value c with
  | Some d => if d <? 16 then Some d else None
  | None => None
  end.

Definition is_underscore (c : ascii) : bool := code c =? 95.

(** Leading white space is skipped. *)
Fixpoint skip_space (s : list ascii) : list ascii :=
  match s with
  | c :: r => if Py_ISSPACE c then skip_space r else s
  | [] => []
  end.

(** The digit loop of [int(s, 16)]: digits with single underscores
    between them.  [prev_us] says that the previous character was an
    underscore.  The result is the value read, the number of digits and
    the unread rest; [None] is a syntax error (two underscores in a
    row, or an underscore at the end of the digits). *)
Fixpoint scan_digits (p : list ascii) (prev_us : bool) (acc : Z) (digits : nat)
  : option (Z * nat * list ascii) :=
  match p with
  | c :: r =>
      if is_underscore c then
        if prev_us then None else scan_digits r true acc digits
      else
        match hex_digit c with
        | Some d => scan_digits r false (16 * acc + d) (S digits)
        | None => if prev_us then None else Some (acc, digits, p)
        end
  | [] => if prev_us then None else Some (acc, digits, [])
  end.

(** An optional sign. *)
Definition read_sign (s : list ascii) : Z * list ascii :=
  match s with
  | c :: r =>
      if code c =? 43 then (1, r)
      else if code c =? 45 then (-1, r)
      else (1, s)
  | [] => (1, s)
  end.

(** An optional [0x] or [0X], after which one underscore is allowed. *)
Definition read_prefix (s : list ascii) : list ascii :=
  match s with
  | c0 :: c1 :: r =>
      if (code c0 =? 48) && ((code c1 =? 120) || (code c1 =? 88)) then
        match r with
        | u :: r' => if is_underscore u then r' else r
        | [] => r
        end
      else s
  | _ => s
  end.

Definition starts_with_underscore (s : list ascii) : bool :=
  match s with
  | c :: _ => is_underscore c
  | [] => false
  end.

(** [int(s, 16)] on a [str]; [None] is [ValueError]. *)
Definition int16_chars (s : list ascii) : option Z :=
  let '(sign, s1) := read_sign (skip_space s) in
  let s2 := read_prefix s1 in
  if starts_with_underscore s2 then None
  else
    match scan_digits s2 false 0 0 with
    | None => None
    | Some (v, digits, rest) =>
        match digits with
        | O => None
        | S _ =>
            match skip_space rest with
            | [] => Some (sign * v)
            | _ :: _ => None
            end
        end
    end.

Definition int16 (s : string) : option Z := int16_chars (chars s).

(** The binary digits of a positive number, most significant first. *)
Fixpoint pos_bits (p : positive) : list ascii :=
  match p with
  | xH => ["1"%char]
  | xO q => pos_bits q ++ ["0"%char]
  | xI q => pos_bits q ++ ["1"%char]
  end.

(** [bin(n)]. *)
Definition bin (n : Z) : list ascii :=
  match n with
  | Z0 => chars "0b0"
  | Zpos p => chars "0b" ++ pos_bits p
  | Zneg p => chars "-0b" ++ pos_bits p
  end.

(** [s.zfill(width)]: zeros on the left, after a leading sign. *)
Definition zfill (width : nat) (s : list ascii) : list ascii :=
  if (width <=? length s)%nat then s
  else
    let fill := replicate (width - length s) "0"%char in
    match s with
    | c :: r =>
        if (code c =? 43) || (code c =? 45) then c :: fill ++ r
        else fill ++ s
    | [] => fill
    end.

Definition ne_int (b1 b2 : ascii) : Z :=
  if Ascii.eqb b1 b2 then 0 else 1.

(** [sum(b1 != b2 for b1, b2 in zip(bin1, bin2))]. *)
Fixpoint sum_ne (bin1 bin2 : list ascii) : Z :=
  match bin1, bin2 with
  | b1 :: r1, b2 :: r2 => ne_int b1 b2 + sum_ne r1 r2
  | _, _ => 0
  end.

End Py.

(** ** [ImageProcessor.calculate_similarity] *)

(** [bin(int(h, 16))[2:].zfill(len(h) * 4)]; [None] is [ValueError]. *)
Definition to_binary (h : string) : option (list ascii) :=
  match Py.int16 h with
  | Some n => Some (Py.zfill (String.length h * 4) (drop 2 (Py.bin n)))
  | None => None
  end.

Definition calculate_similarity (hash1 hash2 : string) : Z :=
  if negb (String.length hash1 =? String.length hash2)%nat then 64
  else
    match to_binary hash1 with
    | None => 64
    | Some bin1 =>
        match to_binary hash2 with
        | None => 64
        | Some bin2 => Py.sum_ne bin1 bin2
        end
    end.

(** ** Exceptions

    A Python exception is either an [HTTPException] or any other
    exception, of which only [str(e)] is observed. *)

Record HTTPException := { status_code : Z; detail : string }.

Inductive exn :=
| EHTTP (e : HTTPException)
| EOther (msg : string).

Definition exc (A : Type) : Type := exn + A.

Definition raise {A} (e : exn) : exc A := inl e.
Definition raise_http {A} (status : Z) (msg : string) : exc A :=
  inl (EHTTP {| status_code := status; detail := msg |}).

Definition exc_bind {A B} (m : exc A) (k : A -> exc B) : exc B :=
  match m with
  | inl e => inl e
  | inr a => k a
  end.

Notation "'let!' x ':=' m 'in' k" := (exc_bind m (fun x => k))
  (at level 10, x name, m at level 100, k at level 200).

(** [try: m  except Exception as e: h e]. *)
Definition try_except {A} (m : exc A) (h : exn -> exc A) : exc A :=
  match m with
  | inl e => h e
  | inr a => inr a
  end.

(** [d[k]] on a dict: [KeyError(k)] when the key is absent. *)
Definition getitem (d : gmap string string) (k : string) : exc string :=
  match d !! k with
  | Some v => inr v
  | None => raise (EOther ("'" +:+ k +:+ "'"))
  end.

(** ** Data model *)

Definition bytes : Type := list Byte.byte.

(** The part of a FastAPI [UploadFile] the server reads. *)
Record UploadFile := { upload_filename : option string; upload_content : bytes }.

(** A document of [db.image_links]: the keys of [ImageLink.dict()].  The
    four hash keys may be absent (the scan tests for them), and
    [updated_at] is absent until [update_one] sets it.  A [datetime]
    is a [Z] time stamp. *)
Record document := {
  id : string;
  filename : string;
  url : string;
  file_hash : string;
  ahash : option string;
  phash : option string;
  dhash : option string;
  whash : option string;
  content_type : string;
  file_size : Z;
  image_width : Z;
  image_height : Z;
  created_at : Z;
  updated_at : option Z
}.

(** [stored_image[algorithm]] with [algorithm in stored_image] as [Some]. *)
Definition doc_hash (algorithm : string) (stored_image : document) : option string :=
  if String.eqb algorithm "dhash" then dhash stored_image
  else if String.eqb algorithm "phash" then phash stored_image
  else if String.eqb algorithm "ahash" then ahash stored_image
  else if String.eqb algorithm "whash" then whash stored_image
  else None.

(** What [uuid.uuid4()] and [datetime.utcnow()] give during one request. *)
Record Env := { uuid4 : string; utcnow : Z }.

(** The write commands sent to the collection. *)
Inductive command :=
| InsertOne (d : document)
| UpdateOne (filter_file_hash : string) (set_url : string) (set_updated_at : Z)
| DeleteOne (filter_id : string).

(** The collection, in its natural order, and the write commands it has
    received, oldest first. *)
Record database := { image_links : list document; commands : list command }.

Definition empty_db : database := {| image_links := []; commands := [] |}.

(** The libraries behind the server.  A function that can raise returns
    [inl msg], where [msg] is [str(e)] of the exception. *)
Class Externals := {
  Image : Type;
  magic_from_buffer : bytes -> string + string;
  Image_open : bytes -> string + Image;
  Image_mode : Image -> string;
  Image_convert : Image -> string -> string + Image;
  Image_size : Image -> Z * Z;
  Image_thumbnail : Image -> Z * Z -> string + Image;
  imagehash_average_hash : Image -> Z -> string + string;
  imagehash_phash : Image -> Z -> string + string;
  imagehash_dhash : Image -> Z -> string + string;
  imagehash_whash : Image -> Z -> string + string;
  sha256_hexdigest : bytes -> string
}.

(** A call of a library function. *)
Definition call {A} (r : string + A) : exc A :=
  match r with
  | inl msg => inl (EOther msg)
  | inr a => inr a
  end.

(** The dict [validate_and_process_image] returns. *)
Record Processed `{Externals} := {
  res_image : Image;
  res_hashes : gmap string string;
  res_file_hash : string;
  res_content_type : string;
  res_file_size : Z;
  res_image_size : Z * Z
}.

Inductive LinkResponse :=
| created (message image_id link_url : string) (hashes : gmap string string)
| updated (message image_id link_url : string).

(** The dict [best_match] of the scan. *)
Record Match := {
  match_id : string;
  match_filename : string;
  match_url : string;
  distance : Z;
  similarity_percentage : Z;
  algorithm_used : string;
  match_created_at : Z
}.

Inductive ScanResponse :=
| match_found (message : string) (m : Match) (redirect_url : string)
    (total_stored_images : nat)
| no_match (total_stored_images : nat) (threshold_used : Z).

(** An entry of the list [get_stored_images] returns. *)
Record StoredImage := {
  si_id : string;
  si_filename : string;
  si_url : string;
  si_content_type : string;
  si_file_size : Z;
  si_image_size : string;
  si_created_at : Z
}.

(** ** [ImageProcessor] *)

Definition max_dimension : Z := 2048.
Definition hash_size : Z := 8.
Definition max_file_size : Z := 10 * 1024 * 1024.
Definition allowed_mime_types : gset string :=
  {[ "image/jpeg"; "image/png"; "image/gif"; "image/bmp"; "image/webp" ]}.

Section Server.
Context `{Externals}.

Definition compute_hashes (image : Image) : exc (gmap string string) :=
  let hashes : gmap string string := ∅ in
  let! a := call (imagehash_average_hash image hash_size) in
  let hashes := <["ahash" := a]> hashes in
  let! p := call (imagehash_phash image hash_size) in
  let hashes := <["phash" := p]> hashes in
  let! d := call (imagehash_dhash image hash_size) in
  let hashes := <["dhash" := d]> hashes in
  let! w := call (imagehash_whash image hash_size) in
  let hashes := <["whash" := w]> hashes in
  inr hashes.

(** The first [try] of [validate_and_process_image]: its handler catches
    every [Exception], the [HTTPException] raised inside it included. *)
Definition detect_type (content : bytes) : exc string :=
  try_except
    (let! detected_type := call (magic_from_buffer content) in
     if bool_decide (detected_type ∈ allowed_mime_types) then inr detected_type
     else raise_http 400 ("Unsupported file type: " +:+ detected_type))
    (fun _ => raise_http 400 "Unable to determine file type").

(** [str(e)] in the second handler; no [HTTPException] is raised in the
    block it guards. *)
Definition exn_str (e : exn) : string :=
  match e with
  | EHTTP h => detail h
  | EOther msg => msg
  end.

Definition validate_and_process_image (file : UploadFile) : exc Processed :=
  let content := upload_content file in
  if Z.of_nat (length content) >? max_file_size then
    raise_http 413 "File too large (max 10MB)"
  else
    let! detected_type := detect_type content in
    try_except
      (let! image := call (Image_open content) in
       let! image :=
         if negb (String.eqb (Image_mode image) "RGB")
         then call (Image_convert image "RGB") else inr image in
       let! image :=
         if Z.max (Image_size image).1 (Image_size image).2 >? max_dimension
         then call (Image_thumbnail image (max_dimension, max_dimension))
         else inr image in
       let! hashes := compute_hashes image in
       let file_hash := sha256_hexdigest content in
       inr {| res_image := image;
              res_hashes := hashes;
              res_file_hash := file_hash;
              res_content_type := detected_type;
              res_file_size := Z.of_nat (length content);
              res_image_size := Image_size image |})
      (fun e => raise_http 400 ("Invalid image file: " +:+ exn_str e)).

(** ** The collection [db.image_links] *)

(** [find_one({"file_hash": h})]: the first document with that hash. *)
Definition find_one (h : string) (db : database) : option document :=
  snd <$> list_find (fun d => file_hash d = h) (image_links db).

(** [{"$set": {"url": u, "updated_at": t}}] on one document. *)
Definition set_url (u : string) (t : Z) (d : document) : document :=
  {| id := id d; filename := filename d; url := u; file_hash := file_hash d;
     ahash := ahash d; phash := phash d; dhash := dhash d; whash := whash d;
     content_type := content_type d; file_size := file_size d;
     image_width := image_width d; image_height := image_height d;
     created_at := created_at d; updated_at := Some t |}.

(** [update_one({"file_hash": h}, {"$set": ...})]: the first match only. *)
Definition update_one (h u : string) (t : Z) (db : database) : database :=
  {| image_links :=
       match list_find (fun d => file_hash d = h) (image_links db) with
       | Some (i, d) => <[i := set_url u t d]> (image_links db)
       | None => image_links db
       end;
     commands := commands db ++ [UpdateOne h u t] |}.

Definition insert_one (d : document) (db : database) : database :=
  {| image_links := image_links db ++ [d];
     commands := commands db ++ [InsertOne d] |}.

(** [find({}).to_list(1000)]. *)
Definition find_all (db : database) : list document := take 1000 (image_links db).

(** [delete_one({"id": i})], with its [deleted_count]. *)
Definition delete_one (i : string) (db : database) : Z * database :=
  match list_find (fun d => id d = i) (image_links db) with
  | Some (k, _) =>
      (1, {| image_links := delete k (image_links db);
             commands := commands db ++ [DeleteOne i] |})
  | None =>
      (0, {| image_links := image_links db;
             commands := commands db ++ [DeleteOne i] |})
  end.

(** The two [except] clauses every route but the listing ends with:
    an [HTTPException] is raised again as it is, any other exception
    becomes status 500. *)
Definition http_errors {A} (r : exc A) : HTTPException + A :=
  match r with
  | inl (EHTTP e) => inl e
  | inl (EOther msg) =>
      inl {| status_code := 500; detail := "Internal server error: " +:+ msg |}
  | inr a => inr a
  end.

(** [f"{file.filename}"]. *)
Definition fmt_filename (file : UploadFile) : string :=
  default "None" (upload_filename file).

(** [file.filename or "unknown"]. *)
Definition filename_or_unknown (file : UploadFile) : string :=
  match upload_filename file with
  | Some f => if String.eqb f "" then "unknown" else f
  | None => "unknown"
  end.

(** ** [link_image_to_url] *)

(** [ImageLink(...).dict()]. *)
Definition new_image_link (env : Env) (link_url : string) (file : UploadFile)
    (result : Processed) : exc document :=
  let! a := getitem (res_hashes result) "ahash" in
  let! p := getitem (res_hashes result) "phash" in
  let! d := getitem (res_hashes result) "dhash" in
  let! w := getitem (res_hashes result) "whash" in
  inr {| id := uuid4 env;
         filename := filename_or_unknown file;
         url := link_url;
         file_hash := res_file_hash result;
         ahash := Some a; phash := Some p; dhash := Some d; whash := Some w;
         content_type := res_content_type result;
         file_size := res_file_size result;
         image_width := (res_image_size result).1;
         image_height := (res_image_size result).2;
         created_at := utcnow env;
         updated_at := None |}.

Definition link_body (env : Env) (link_url : string) (file : UploadFile)
    (db : database) : exc LinkResponse * database :=
  match validate_and_process_image file with
  | inl e => (inl e, db)
  | inr result =>
      match find_one (res_file_hash result) db with
      | Some existing =>
          let db' := update_one (res_file_hash result) link_url (utcnow env) db in
          (inr (updated ("Updated URL for existing image: " +:+ fmt_filename file)
                  (id existing) link_url), db')
      | None =>
          match new_image_link env link_url file result with
          | inl e => (inl e, db)
          | inr image_link =>
              let db' := insert_one image_link db in
              (inr (created ("Successfully linked " +:+ fmt_filename file
                               +:+ " to " +:+ link_url)
                      (id image_link) link_url (res_hashes result)), db')
          end
      end
  end.

Definition link_image_to_url (env : Env) (link_url : string) (file : UploadFile)
    (db : database) : (HTTPException + LinkResponse) * database :=
  let r := link_body env link_url file db in (http_errors r.1, r.2).

(** ** [scan_image_for_url] *)

Definition algorithms : list string := ["dhash"; "phash"; "ahash"; "whash"].

(** The dict [distances] of one stored image, in insertion order. *)
Definition distances_of (query_hashes : gmap string string)
    (stored_image : document) : list (string * Z) :=
  omap (fun algorithm =>
          match query_hashes !! algorithm, doc_hash algorithm stored_image with
          | Some q, Some s => Some (algorithm, calculate_similarity q s)
          | _, _ => None
          end) algorithms.

(** [min(distances.values())]; [None] when the dict is empty. *)
Definition min_value (distances : list (string * Z)) : option Z :=
  match distances with
  | [] => None
  | kv :: rest => Some (foldl (fun m kv' => if kv'.2 <? m then kv'.2 else m) kv.2 rest)
  end.

(** [min(distances, key=distances.get)]: the first key of least value. *)
Definition min_key (distances : list (string * Z)) : option string :=
  match distances with
  | [] => None
  | kv :: rest =>
      Some (foldl (fun best kv' => if kv'.2 <? best.2 then kv' else best) kv rest).1
  end.

(** [best_match] and [best_distance]; [None] is [float('inf')]. *)
Record scan_state := { best_match : option Match; best_distance : option Z }.

Definition lt_best (d : Z) (best : option Z) : bool :=
  match best with
  | None => true
  | Some b => d <? b
  end.

(** One turn of the loop over [stored_images]. *)
Definition scan_one (query_hashes : gmap string string) (threshold : Z)
    (st : scan_state) (stored_image : document) : scan_state :=
  let distances := distances_of query_hashes stored_image in
  match min_value distances, min_key distances with
  | Some min_distance, Some algorithm =>
      if (min_distance <=? threshold) && lt_best min_distance (best_distance st)
      then
        {| best_distance := Some min_distance;
           best_match :=
             Some {| match_id := id stored_image;
                     match_filename := filename stored_image;
                     match_url := url stored_image;
                     distance := min_distance;
                     similarity_percentage := Z.max 0 (100 - min_distance * 10);
                     algorithm_used := algorithm;
                     match_created_at := created_at stored_image |} |}
      else st
  | _, _ => st
  end.

Definition scan_loop (query_hashes : gmap string string) (threshold : Z)
    (stored_images : list document) : scan_state :=
  foldl (scan_one query_hashes threshold)
        {| best_match := None; best_distance := None |} stored_images.

Definition scan_body (file : UploadFile) (threshold : Z) (db : database)
    : exc ScanResponse :=
  let! result := validate_and_process_image file in
  let query_hashes := res_hashes result in
  let stored_images := find_all db in
  match best_match (scan_loop query_hashes threshold stored_images) with
  | Some m =>
      inr (match_found ("Found matching image: " +:+ match_filename m) m
             (match_url m) (length stored_images))
  | None => inr (no_match (length stored_images) threshold)
  end.

Definition scan_image_for_url (file : UploadFile) (threshold : Z) (db : database)
    : (HTTPException + ScanResponse) * database :=
  (http_errors (scan_body file threshold db), db).

(** ** [get_stored_images] and [delete_stored_image] *)

Definition format_image (img : document) : StoredImage :=
  {| si_id := id img;
     si_filename := filename img;
     si_url := url img;
     si_content_type := content_type img;
     si_file_size := file_size img;
     si_image_size := pretty (image_width img) +:+ "x" +:+ pretty (image_height img);
     si_created_at := created_at img |}.

Definition get_stored_images (db : database)
    : (HTTPException + (nat * list StoredImage)) * database :=
  let formatted_images := format_image <$> find_all db in
  (inr (length formatted_images, formatted_images), db).

Definition delete_stored_image (image_id : string) (db : database)
    : (HTTPException + string) * database :=
  let '(deleted_count, db') := delete_one image_id db in
  if deleted_count =? 0 then
    (inl {| status_code := 404; detail := "Image not found" |}, db')
  else (inr "Image link deleted successfully", db').

(** ** Sequential executions *)

Inductive request :=
| Link (env : Env) (link_url : string) (file : UploadFile)
| Scan (file : UploadFile) (threshold : Z)
| ListImages
| Delete (image_id : string).

(** The store after a request. *)
Definition handle (r : request) (db : database) : database :=
  match r with
  | Link env link_url file => (link_image_to_url env link_url file db).2
  | Scan file threshold => (scan_image_for_url file threshold db).2
  | ListImages => (get_stored_images db).2
  | Delete image_id => (delete_stored_image image_id db).2
  end.

(** The stores a sequence of requests reaches from the empty store. *)
Inductive reachable : database -> Prop :=
| reachable_empty : reachable empty_db
| reachable_step db r : reachable db -> reachable (handle r db).

End Server.

(** ** Reference definitions for the distance *)

(** The Hamming distance of the [n] low bits of two integers. *)
Fixpoint hamming (n : nat) (a b : Z) : Z :=
  match n with
  | O => 0
  | S k =>
      (if Bool.eqb (Z.odd a) (Z.odd b) then 0 else 1)
      + hamming k (Z.div2 a) (Z.div2 b)
  end.

(** A code made of hexadecimal digits only, as [str(imagehash...)] is. *)
Definition hex_code (h : string) : Prop :=
  Forall (fun c => is_Some (Py.hex_digit c)) (Py.chars h).

(** Reading a string of [0], [1] and [b] back: the number its binary
    digits spell, and whether a [b] occurs in it. *)
Definition bits_value (l : list ascii) : Z :=
  foldl (fun acc c =>
           if Ascii.eqb c "b" then acc
           else 2 * acc + (if Ascii.eqb c "1" then 1 else 0)) 0 l.

Definition has_b (l : list ascii) : bool := existsb (Ascii.eqb "b") l.

Definition signed_value (l : list ascii) : Z :=
  if has_b l then - bits_value l else bits_value l.

(** The binary digits of a natural number; none for zero. *)
Definition nat_bits (v : Z) : list ascii :=
  match v with
  | Zpos p => Py.pos_bits p
  | _ => []
  end.

(** The [w] binary digits of a natural number below [2 ^ w]. *)
Definition padded (w : nat) (v : Z) : list ascii :=
  replicate (w - length (nat_bits v)) "0"%char ++ nat_bits v.

Definition bit_char (v : Z) : ascii := if Z.odd v then "1"%char else "0"%char.

(** ** The per-candidate minimum and the best candidate, as relations *)

Section Best.
Context (query_hashes : gmap string string).

(** [d] is the distance under some algorithm that both the query and the
    stored image have a code for. *)
Definition distance_under (stored_image : document) (algorithm : string) (d : Z) : Prop :=
  algorithm ∈ algorithms /\
  exists q s, query_hashes !! algorithm = Some q /\
              doc_hash algorithm stored_image = Some s /\
              d = calculate_similarity q s.

(** [d] is the least distance of the stored image over these algorithms. *)
Definition candidate_min (stored_image : document) (d : Z) : Prop :=
  (exists algorithm, distance_under stored_image algorithm d) /\
  forall algorithm d', distance_under stored_image algorithm d' -> d <= d'.

(** The candidate at position [i] has the least minimum of all
    candidates, and is the first one to have it. *)
Definition first_best (candidates : list document) (i : nat)
    (stored_image : document) (d : Z) : Prop :=
  candidates !! i = Some stored_image /\
  candidate_min stored_image d /\
  forall j other d', candidates !! j = Some other -> candidate_min other d' ->
    d <= d' /\ ((j < i)%nat -> d < d').

End Best.

(** ** The uniqueness of checksums *)

(** No two documents of the collection have the same [file_hash]. *)
(** The checksums of the collection, in its order. *)
Definition checksums (db : database) : list string := file_hash <$> image_links db.

(** No two documents of the collection have the same [file_hash]. *)
Definition unique_checksums (db : database) : Prop := NoDup (checksums db).

(** ** A small library to run the server on

    The sniffed type is read off the first byte, an image is the bytes
    after it and must not be empty, its four codes are read off the
    second byte, and the digest of a content is its own text. *)

Module Sample.

Definition sniff (content : bytes) : string + string :=
  match content with
  | Byte.x50 :: _ => inr "image/png"
  | Byte.x4a :: _ => inr "image/jpeg"
  | Byte.x25 :: _ => inr "application/pdf"
  | _ => inl "no magic"
  end.

Definition open (content : bytes) : string + bytes :=
  match content with
  | _ :: b :: r => inr (b :: r)
  | _ => inl "cannot identify image file"
  end.

Definition code_of (low : string) (image : bytes) : string + string :=
  match image with
  | Byte.x41 :: _ => inr ("00000000000000" +:+ low)
  | Byte.x42 :: _ => inr ("000000000000f0" +:+ low)
  | _ => inr ("ffffffffffffff" +:+ low)
  end.

#[local] Instance library : Externals := {|
  Image := bytes;
  magic_from_buffer := sniff;
  Image_open := open;
  Image_mode := fun _ => "RGB";
  Image_convert := fun image _ => inr image;
  Image_size := fun image => (Z.of_nat (length image), 1);
  Image_thumbnail := fun image _ => inr image;
  imagehash_average_hash := fun image _ => code_of "00" image;
  imagehash_phash := fun image _ => code_of "01" image;
  imagehash_dhash := fun image _ => code_of "03" image;
  imagehash_whash := fun image _ => code_of "07" image;
  sha256_hexdigest := String.string_of_list_byte
|}.

Definition png_a : UploadFile :=
  {| upload_filename := Some "a.png"; upload_content := [Byte.x50; Byte.x41] |}.
Definition png_a_again : UploadFile :=
  {| upload_filename := None; upload_content := [Byte.x50; Byte.x41] |}.
Definition png_b : UploadFile :=
  {| upload_filename := Some "b.png"; upload_content := [Byte.x50; Byte.x42] |}.
Definition pdf : UploadFile :=
  {| upload_filename := Some "c.pdf"; upload_content := [Byte.x25; Byte.x50] |}.
Definition truncated : UploadFile :=
  {| upload_filename := Some "d.png"; upload_content := [Byte.x50] |}.

Definition env1 : Env := {| uuid4 := "id-1"; utcnow := 100 |}.
Definition env2 : Env := {| uuid4 := "id-2"; utcnow := 200 |}.
Definition env3 : Env := {| uuid4 := "id-3"; utcnow := 300 |}.

(** The store after [a.png] and [b.png] have been linked. *)
Definition db1 : database := handle (Link env1 "https://a.example" png_a) empty_db.
Definition db2 : database := handle (Link env2 "https://b.example" png_b) db1.

End Sample.

(** ** The match a stored image would give *)

(** The dict the loop of the scan builds for a stored image: its least
    distance, the first algorithm that attains it, and its fields. *)
Definition candidate_match (query_hashes : gmap string string)
    (stored_image : document) : option Match :=
  match min_value (distances_of query_hashes stored_image),
        min_key (distances_of query_hashes stored_image) with
  | Some min_distance, Some algorithm =>
      Some {| match_id := id stored_image;
              match_filename := filename stored_image;
              match_url := url stored_image;
              distance := min_distance;
              similarity_percentage := Z.max 0 (100 - min_distance * 10);
              algorithm_used := algorithm;
              match_created_at := created_at stored_image |}
  | _, _ => None
  end.

(** Two matches that differ in their url at most, the second having the
    url [u] if it differs. *)
Definition same_but_url (u : string) (m m' : Match) : Prop :=
  match_id m' = match_id m /\ match_filename m' = match_filename m /\
  distance m' = distance m /\
  similarity_percentage m' = similarity_percentage m /\
  algorithm_used m' = algorithm_used m /\
  match_created_at m' = match_created_at m /\
  (match_url m' = match_url m \/ match_url m' = u).

(** [a] comes before [b] in the order the scan tries the algorithms. *)
Definition precedes (a b : string) : Prop :=
  exists i j, algorithms !! i = Some a /\ algorithms !! j = Some b /\ (i < j)%nat.

(** A document that carries all four codes. *)
Definition has_all_codes (d : document) : Prop :=
  forall algorithm, algorithm ∈ algorithms -> is_Some (doc_hash algorithm d).

(** ** [get_backend_url] of the test scripts

    The file is the list of its lines, each with its line end; [None] is
    a file that cannot be opened or read. *)

Module Env.

(** [str.isspace()] on a character of the ASCII range. *)
Definition isspace (c : ascii) : bool :=
  (Py.code c =? 32) || ((9 <=? Py.code c) && (Py.code c <=? 13))
  || ((28 <=? Py.code c) && (Py.code c <=? 31)).

Fixpoint lstrip (s : string) : string :=
  match s with
  | String c r => if isspace c then lstrip r else s
  | EmptyString => EmptyString
  end.

(** [s.rstrip()]. *)
Fixpoint rstrip (s : string) : string :=
  match s with
  | String c r =>
      match rstrip r with
      | EmptyString => if isspace c then EmptyString else String c EmptyString
      | r' => String c r'
      end
  | EmptyString => EmptyString
  end.

(** [s.strip()]. *)
Definition strip (s : string) : string := rstrip (lstrip s).

(** [s.split(sep, 1)[1]] for a separator of one character; [None] is
    the [IndexError] of a string without the separator. *)
Fixpoint split1_second (sep : ascii) (s : string) : option string :=
  match s with
  | String c r => if Ascii.eqb c sep then Some r else split1_second sep r
  | EmptyString => None
  end.

(** The last character of a string. *)
Fixpoint last_char (s : string) : option ascii :=
  match s with
  | String c EmptyString => Some c
  | String _ r => last_char r
  | EmptyString => None
  end.

Definition key : string := "REACT_APP_BACKEND_URL=".
Definition default_url : string := "http://localhost:8001".

(** The loop over the lines: [Some (Some url)] is a [return], [Some None]
    is the end of the loop, [None] an exception. *)
Fixpoint read_lines (lines : list string) : option (option string) :=
  match lines with
  | line :: rest =>
      if String.prefix key line then
        match split1_second "="%char line with
        | Some v => Some (Some (strip v))
        | None => None
        end
      else read_lines rest
  | [] => Some None
  end.

Definition get_backend_url (file : option (list string)) : string :=
  match file with
  | Some lines =>
      match read_lines lines with
      | Some (Some url) => url
      | Some None => default_url
      | None => default_url
      end
  | None => default_url
  end.

End Env.

(** * Properties *)

(** ** The comparison of two binary strings *)

Lemma ne_int_sym a b : Py.ne_int a b = Py.ne_int b a.
Proof. unfold Py.ne_int. by rewrite Ascii.eqb_sym. Qed.

Lemma ne_int_range a b : 0 <= Py.ne_int a b <= 1.
Proof. unfold Py.ne_int. destruct (Ascii.eqb a b); lia. Qed.

Lemma ne_int_zero a b : Py.ne_int a b = 0 <-> a = b.
Proof.
  unfold Py.ne_int. destruct (Ascii.eqb_spec a b); split; intros; try done.
Qed.

Lemma sum_ne_sym l1 : forall l2, Py.sum_ne l1 l2 = Py.sum_ne l2 l1.
Proof.
  induction l1 as [|a l1 IH]; intros [|b l2]; simpl; try done.
  by rewrite IH, ne_int_sym.
Qed.

Lemma sum_ne_nonneg l1 : forall l2, 0 <= Py.sum_ne l1 l2.
Proof.
  induction l1 as [|a l1 IH]; intros [|b l2]; simpl; try lia.
  pose proof (ne_int_range a b). pose proof (IH l2). lia.
Qed.

Lemma sum_ne_le_length l1 : forall l2, Py.sum_ne l1 l2 <= Z.of_nat (length l1).
Proof.
  induction l1 as [|a l1 IH]; intros [|b l2]; simpl length; simpl Py.sum_ne; try lia.
  pose proof (ne_int_range a b). pose proof (IH l2). lia.
Qed.

Lemma sum_ne_refl l : Py.sum_ne l l = 0.
Proof.
  induction l as [|a l IH]; simpl; [done|].
  rewrite IH. by rewrite (proj2 (ne_int_zero a a)).
Qed.

Lemma sum_ne_zero l1 : forall l2,
  length l1 = length l2 -> Py.sum_ne l1 l2 = 0 -> l1 = l2.
Proof.
  induction l1 as [|a l1 IH]; intros [|b l2] Hlen Hsum; simpl in *; try done.
  pose proof (ne_int_range a b). pose proof (sum_ne_nonneg l1 l2).
  assert (Py.ne_int a b = 0) as ->%ne_int_zero by lia.
  f_equal. apply IH; [congruence | lia].
Qed.

Lemma sum_ne_snoc l1 : forall l2 a b,
  length l1 = length l2 ->
  Py.sum_ne (l1 ++ [a]) (l2 ++ [b]) = Py.sum_ne l1 l2 + Py.ne_int a b.
Proof.
  induction l1 as [|x l1 IH]; intros [|y l2] a b Hlen; simpl in *; try done.
  - lia.
  - rewrite IH by congruence. lia.
Qed.

(** ** [bin], [zfill] and the digits they produce *)

Lemma pos_bits_head p : exists l, Py.pos_bits p = "1"%char :: l.
Proof.
  induction p as [p [l IH]|p [l IH]|]; simpl; [rewrite IH..|]; eauto.
Qed.

Lemma bin_body v :
  drop 2 (Py.bin v) =
    match v with
    | Z0 => ["0"%char]
    | Zpos p => Py.pos_bits p
    | Zneg p => "b"%char :: Py.pos_bits p
    end.
Proof. by destruct v. Qed.

Lemma zfill_no_sign w c l :
  (Py.code c =? 43) || (Py.code c =? 45) = false ->
  Py.zfill w (c :: l) = replicate (w - length (c :: l)) "0"%char ++ c :: l.
Proof.
  intros Hc. unfold Py.zfill. rewrite Hc.
  destruct (Nat.leb_spec w (length (c :: l))) as [Hle|Hlt]; [|done].
  by replace (w - length (c :: l))%nat with 0%nat by lia.
Qed.

Lemma zfill_body w v :
  Py.zfill w (drop 2 (Py.bin v)) =
    replicate (w - length (drop 2 (Py.bin v))) "0"%char ++ drop 2 (Py.bin v).
Proof.
  rewrite bin_body. destruct v as [|p|p].
  - by apply zfill_no_sign.
  - destruct (pos_bits_head p) as [l ->]. by apply zfill_no_sign.
  - by apply zfill_no_sign.
Qed.

Lemma length_zfill_body w v :
  (length (drop 2 (Py.bin v)) <= w)%nat ->
  length (Py.zfill w (drop 2 (Py.bin v))) = w.
Proof.
  intros Hle. rewrite zfill_body, length_app, length_replicate. lia.
Qed.

Lemma bits_value_snoc l c :
  bits_value (l ++ [c]) =
    if Ascii.eqb c "b" then bits_value l
    else 2 * bits_value l + (if Ascii.eqb c "1" then 1 else 0).
Proof. unfold bits_value. by rewrite foldl_app. Qed.

Lemma bits_value_pos_bits p : bits_value (Py.pos_bits p) = Z.pos p.
Proof.
  induction p as [p IH|p IH|]; simpl; [| |done];
    rewrite bits_value_snoc, IH; simpl; lia.
Qed.

Lemma bits_value_zeros k l :
  bits_value (replicate k "0"%char ++ l) = bits_value l.
Proof.
  unfold bits_value. rewrite foldl_app. f_equal.
  induction k as [|k IH]; simpl; [done|]. exact IH.
Qed.

Lemma bits_value_b l : bits_value ("b"%char :: l) = bits_value l.
Proof. done. Qed.

Lemma has_b_zeros k l : has_b (replicate k "0"%char ++ l) = has_b l.
Proof. induction k as [|k IH]; simpl; [done|]. exact IH. Qed.

Lemma has_b_pos_bits p : has_b (Py.pos_bits p) = false.
Proof.
  induction p as [p IH|p IH|]; simpl; [| |done];
    unfold has_b in *; rewrite existsb_app, IH; done.
Qed.

(** The padded binary string determines the integer. *)
Lemma signed_value_zfill w v :
  signed_value (Py.zfill w (drop 2 (Py.bin v))) = v.
Proof.
  rewrite zfill_body. unfold signed_value.
  rewrite has_b_zeros, bits_value_zeros, bin_body.
  destruct v as [|p|p].
  - done.
  - by rewrite has_b_pos_bits, bits_value_pos_bits.
  - change (has_b ("b"%char :: Py.pos_bits p)) with true.
    rewrite bits_value_b, bits_value_pos_bits. done.
Qed.

Lemma pos_bits_length p : forall k : nat,
  Z.pos p < 2 ^ Z.of_nat k -> (length (Py.pos_bits p) <= k)%nat.
Proof.
  induction p as [p IH|p IH|]; intros k Hlt; simpl.
  - destruct k as [|k]; [simpl in Hlt; lia|].
    rewrite length_app; simpl. rewrite Nat2Z.inj_succ, Z.pow_succ_r in Hlt by lia.
    specialize (IH k). lia.
  - destruct k as [|k]; [simpl in Hlt; lia|].
    rewrite length_app; simpl. rewrite Nat2Z.inj_succ, Z.pow_succ_r in Hlt by lia.
    specialize (IH k). lia.
  - destruct k as [|k]; [simpl in Hlt; lia|]. lia.
Qed.

Lemma body_length_nonneg v (k : nat) :
  (1 <= k)%nat -> 0 <= v < 2 ^ Z.of_nat k ->
  (length (drop 2 (Py.bin v)) <= k)%nat.
Proof.
  intros Hk [H0 Hlt]. rewrite bin_body. destruct v as [|p|p]; [simpl; lia| |lia].
  by apply pos_bits_length.
Qed.

Lemma body_length_neg v (k : nat) :
  - 2 ^ Z.of_nat k < v < 0 ->
  (length (drop 2 (Py.bin v)) <= S k)%nat.
Proof.
  intros [Hlt H0]. rewrite bin_body. destruct v as [|p|p]; [lia|lia|].
  simpl. apply le_n_S, pos_bits_length. lia.
Qed.

(** ** What [int(s, 16)] accepts *)

Lemma hex_digit_range c d : Py.hex_digit c = Some d -> 0 <= d < 16.
Proof.
  unfold Py.hex_digit, Py.digit_value.
  repeat case_match; intros; simplify_eq; lia.
Qed.

Lemma length_chars s : length (Py.chars s) = String.length s.
Proof. induction s as [|c s IH]; simpl; [done|]. by rewrite <- IH. Qed.

Lemma length_skip_space s : (length (Py.skip_space s) <= length s)%nat.
Proof.
  induction s as [|c s IH]; simpl; [done|].
  destruct (Py.Py_ISSPACE c); simpl; lia.
Qed.

Lemma read_sign_cases s sign s1 :
  Py.read_sign s = (sign, s1) ->
  (sign = 1 /\ (length s1 <= length s)%nat) \/
  (sign = -1 /\ (S (length s1) <= length s)%nat).
Proof.
  unfold Py.read_sign. destruct s as [|c r]; [|repeat case_match];
    intros; simplify_eq; simpl; auto with lia.
Qed.

Lemma length_read_prefix s : (length (Py.read_prefix s) <= length s)%nat.
Proof.
  unfold Py.read_prefix. repeat case_match; simpl; lia.
Qed.

Lemma scan_digits_bound p : forall b acc d v n rest,
  0 <= acc ->
  Py.scan_digits p b acc d = Some (v, n, rest) ->
  exists k : nat,
    n = (d + k)%nat /\ (k + length rest <= length p)%nat /\
    acc * 16 ^ Z.of_nat k <= v < (acc + 1) * 16 ^ Z.of_nat k.
Proof.
  induction p as [|c r IH]; intros b acc d v n rest Hacc Hscan; simpl in Hscan.
  - destruct b; simplify_eq. exists 0%nat. simpl. lia.
  - destruct (Py.is_underscore c).
    + destruct b; [done|].
      apply IH in Hscan as (k & -> & Hlen & Hv); [|done].
      exists k. simpl. lia.
    + destruct (Py.hex_digit c) as [dv|] eqn:Hd.
      * apply hex_digit_range in Hd.
        apply IH in Hscan as (k & -> & Hlen & Hv); [|lia].
        exists (S k). rewrite Nat2Z.inj_succ, Z.pow_succ_r by lia.
        simpl. split_and!; [lia|lia|nia|nia].
      * destruct b; simplify_eq. exists 0%nat. simpl. lia.
Qed.

Lemma pow16_pow2 (k : nat) : 16 ^ Z.of_nat k = 2 ^ Z.of_nat (4 * k).
Proof.
  rewrite Nat2Z.inj_mul, Z.pow_mul_r by lia. done.
Qed.

(** The digits [bin] prints for a parsed code fit in four bits for
    each of its characters. *)
Lemma int16_chars_body_length s v :
  Py.int16_chars s = Some v ->
  (length (drop 2 (Py.bin v)) <= length s * 4)%nat.
Proof.
  unfold Py.int16_chars.
  destruct (Py.read_sign (Py.skip_space s)) as [sign s1] eqn:Hsign.
  pose proof (length_skip_space s) as Hsp.
  pose proof (length_read_prefix s1) as Hpre.
  apply read_sign_cases in Hsign.
  destruct (Py.starts_with_underscore _); [done|].
  destruct (Py.scan_digits _ _ _ _) as [[[v0 n] rest]|] eqn:Hscan; [|done].
  destruct n as [|n]; [done|].
  destruct (Py.skip_space rest); [|done]. intros [= <-].
  apply scan_digits_bound in Hscan as (k & Hn & Hlen & Hv); [|done].
  rewrite pow16_pow2 in Hv.
  destruct Hsign as [[-> Hs1]|[-> Hs1]].
  - etrans; [apply (body_length_nonneg _ (4 * k))|]; lia.
  - destruct (decide (v0 = 0)) as [->|Hne].
    + simpl. lia.
    + etrans; [apply (body_length_neg _ (4 * k))|]; lia.
Qed.

Lemma to_binary_Some h v :
  Py.int16 h = Some v ->
  to_binary h = Some (Py.zfill (String.length h * 4) (drop 2 (Py.bin v))).
Proof. unfold to_binary. by intros ->. Qed.

Lemma to_binary_None h : Py.int16 h = None -> to_binary h = None.
Proof. unfold to_binary. by intros ->. Qed.

Lemma to_binary_length h b :
  to_binary h = Some b -> length b = (String.length h * 4)%nat.
Proof.
  unfold to_binary. destruct (Py.int16 h) as [v|] eqn:Hv; [|done].
  intros [= <-]. apply length_zfill_body.
  rewrite <- length_chars. by apply int16_chars_body_length.
Qed.

Lemma to_binary_value h b v :
  Py.int16 h = Some v -> to_binary h = Some b -> signed_value b = v.
Proof.
  intros Hv. rewrite (to_binary_Some _ _ Hv). intros [= <-].
  apply signed_value_zfill.
Qed.

(** ** [calculate_similarity] *)

Lemma calculate_similarity_length a b :
  String.length a <> String.length b -> calculate_similarity a b = 64.
Proof.
  intros Hne. unfold calculate_similarity.
  by destruct (Nat.eqb_spec (String.length a) (String.length b)).
Qed.

Lemma calculate_similarity_unparsable a b :
  Py.int16 a = None \/ Py.int16 b = None -> calculate_similarity a b = 64.
Proof.
  intros Hnone. unfold calculate_similarity.
  destruct (negb _); [done|].
  destruct (to_binary a) as [ba|] eqn:Ha; [|done].
  destruct (to_binary b) as [bb|] eqn:Hb; [|done].
  unfold to_binary in Ha, Hb.
  destruct Hnone as [Hn|Hn]; rewrite Hn in *; done.
Qed.

Lemma calculate_similarity_parsed a b va vb :
  String.length a = String.length b ->
  Py.int16 a = Some va -> Py.int16 b = Some vb ->
  calculate_similarity a b =
    Py.sum_ne (Py.zfill (String.length a * 4) (drop 2 (Py.bin va)))
              (Py.zfill (String.length b * 4) (drop 2 (Py.bin vb))).
Proof.
  intros Hlen Ha Hb. unfold calculate_similarity.
  destruct (Nat.eqb_spec (String.length a) (String.length b)); [|done].
  rewrite (to_binary_Some _ _ Ha), (to_binary_Some _ _ Hb). done.
Qed.

Lemma calculate_similarity_sym x y :
  calculate_similarity x y = calculate_similarity y x.
Proof.
  unfold calculate_similarity. rewrite (Nat.eqb_sym (String.length y)).
  destruct (negb _); [done|].
  destruct (to_binary x), (to_binary y); try done. apply sum_ne_sym.
Qed.

Lemma calculate_similarity_nonneg x y : 0 <= calculate_similarity x y.
Proof.
  unfold calculate_similarity. repeat case_match; try lia. apply sum_ne_nonneg.
Qed.

Lemma calculate_similarity_zero x y :
  calculate_similarity x y = 0 <->
  String.length x = String.length y /\
  exists v, Py.int16 x = Some v /\ Py.int16 y = Some v.
Proof.
  split.
  - intros Hz.
    destruct (decide (String.length x = String.length y)) as [Hlen|Hlen];
      [|rewrite calculate_similarity_length in Hz; done].
    destruct (Py.int16 x) as [vx|] eqn:Hx;
      [|rewrite calculate_similarity_unparsable in Hz; auto; done].
    destruct (Py.int16 y) as [vy|] eqn:Hy;
      [|rewrite calculate_similarity_unparsable in Hz; auto; done].
    rewrite (calculate_similarity_parsed _ _ _ _ Hlen Hx Hy) in Hz.
    apply sum_ne_zero in Hz.
    + split; [done|]. exists vx. split; [done|]. f_equal.
      rewrite <- (signed_value_zfill (String.length x * 4) vx), Hz.
      by rewrite signed_value_zfill.
    + rewrite (to_binary_length x), (to_binary_length y), Hlen;
        [done|by apply to_binary_Some..].
  - intros (Hlen & v & Hx & Hy).
    rewrite (calculate_similarity_parsed _ _ _ _ Hlen Hx Hy), Hlen.
    apply sum_ne_refl.
Qed.

Lemma calculate_similarity_self x :
  calculate_similarity x x = 0 <-> is_Some (Py.int16 x).
Proof.
  rewrite calculate_similarity_zero. split.
  - intros (_ & v & Hv & _). eauto.
  - intros [v Hv]. eauto.
Qed.

(** C3, as the code has it: the distance is symmetric and never
    negative; it is zero exactly when the two codes have the same length
    and [int(_, 16)] reads the same integer from both, so that the two
    binary strings compared are the same; the distance of a code to
    itself is zero exactly when the code parses, and is the sentinel 64
    when it does not. *)
Theorem calculate_similarity_laws (x y : string) :
  calculate_similarity x y = calculate_similarity y x /\
  0 <= calculate_similarity x y /\
  (calculate_similarity x y = 0 <->
     String.length x = String.length y /\
     exists v, Py.int16 x = Some v /\ Py.int16 y = Some v) /\
  (calculate_similarity x y = 0 <->
     exists bits, to_binary x = Some bits /\ to_binary y = Some bits) /\
  (calculate_similarity x x = 0 <-> is_Some (Py.int16 x)) /\
  (Py.int16 x = None -> calculate_similarity x x = 64).
Proof.
  split_and!.
  - apply calculate_similarity_sym.
  - apply calculate_similarity_nonneg.
  - apply calculate_similarity_zero.
  - rewrite calculate_similarity_zero. split.
    + intros (Hlen & v & Hx & Hy). eexists. split; [by apply to_binary_Some|].
      rewrite Hlen. by apply to_binary_Some.
    + intros (bits & Hx & Hy).
      pose proof (to_binary_length _ _ Hx) as Lx.
      pose proof (to_binary_length _ _ Hy) as Ly.
      split; [lia|].
      unfold to_binary in Hx, Hy.
      destruct (Py.int16 x) as [vx|] eqn:Ex; [|done].
      destruct (Py.int16 y) as [vy|] eqn:Ey; [|done].
      exists vx. split; [done|]. f_equal.
      injection Hx as Hx. injection Hy as Hy.
      rewrite <- (signed_value_zfill (String.length y * 4) vy), Hy, <- Hx.
      by rewrite signed_value_zfill.
  - apply calculate_similarity_self.
  - intros Hn. apply calculate_similarity_unparsable. auto.
Qed.

(** C3 as stated fails: a code that does not parse is at the sentinel
    distance 64 from itself, not at distance 0. *)
Lemma calculate_similarity_self_sentinel :
  Py.int16 "zz" = None /\ calculate_similarity "zz" "zz" = 64 /\
  ~ (forall x : string, calculate_similarity x x = 0).
Proof.
  split_and!; [done|done|].
  intros Hall. specialize (Hall "zz"). done.
Qed.

(** Outside the hash codes, on two sign-prefixed texts: [int(_, 16)]
    accepts both, [bin] of a negative number starts with [-0b], and the
    slice [[2:]] leaves the letter [b] in the string.  The function
    answers 2 there.  No caller passes such text: the codes compared are
    the ones [imagehash] writes, which are hexadecimal digits. *)
Lemma calculate_similarity_signed_codes :
  String.length "-1" = String.length "-3" /\
  Py.int16 "-1" = Some (-1) /\ Py.int16 "-3" = Some (-3) /\
  to_binary "-1" = Some (Py.chars "000000b1") /\
  to_binary "-3" = Some (Py.chars "00000b11") /\
  calculate_similarity "-1" "-3" = 2 /\
  hamming 8 (-1) (-3) = 1 /\ hamming 8 1 3 = 1.
Proof. by split_and!. Qed.

(** ** The distance of two codes that parse to natural numbers *)

Lemma padded_length w v :
  (length (nat_bits v) <= w)%nat -> length (padded w v) = w.
Proof. intros Hle. unfold padded. rewrite length_app, length_replicate. lia. Qed.

Lemma padded_step w v :
  0 <= v -> (length (nat_bits v) <= S w)%nat ->
  padded (S w) v = padded w (Z.div2 v) ++ [bit_char v] /\
  (length (nat_bits (Z.div2 v)) <= w)%nat.
Proof.
  intros H0 Hlen. unfold padded. destruct v as [|p|p]; [| |lia].
  - simpl. split; [|lia]. rewrite !app_nil_r, Nat.sub_0_r.
    apply replicate_cons_app.
  - destruct p as [q|q|]; simpl in *.
    + rewrite length_app in *. simpl in *.
      split; [|lia]. rewrite <- app_assoc. f_equal. f_equal. lia.
    + rewrite length_app in *. simpl in *.
      split; [|lia]. rewrite <- app_assoc. f_equal. f_equal. lia.
    + split; [|lia]. rewrite app_nil_r. f_equal; lia.
Qed.

Lemma ne_int_bit_char a b :
  Py.ne_int (bit_char a) (bit_char b) =
    if Bool.eqb (Z.odd a) (Z.odd b) then 0 else 1.
Proof. unfold bit_char. by destruct (Z.odd a), (Z.odd b). Qed.

Lemma sum_ne_padded w : forall a b,
  0 <= a -> 0 <= b ->
  (length (nat_bits a) <= w)%nat -> (length (nat_bits b) <= w)%nat ->
  Py.sum_ne (padded w a) (padded w b) = hamming w a b.
Proof.
  induction w as [|w IH]; intros a b Ha Hb La Lb.
  - unfold padded. destruct (nat_bits a), (nat_bits b); simpl in *; done || lia.
  - destruct (padded_step w a Ha La) as [-> La'].
    destruct (padded_step w b Hb Lb) as [-> Lb'].
    rewrite sum_ne_snoc by (by rewrite !padded_length).
    rewrite ne_int_bit_char. simpl hamming.
    rewrite IH; [lia| | |done|done]; by apply Z.div2_nonneg.
Qed.

Lemma zfill_padded w v :
  0 <= v -> (length (drop 2 (Py.bin v)) <= w)%nat ->
  Py.zfill w (drop 2 (Py.bin v)) = padded w v.
Proof.
  intros H0. rewrite zfill_body, bin_body. unfold padded.
  destruct v as [|p|p]; [|done|lia].
  simpl. intros Hw. destruct w as [|w]; [lia|].
  rewrite app_nil_r. simpl. rewrite Nat.sub_0_r. symmetry.
  apply replicate_cons_app.
Qed.

Lemma nat_bits_body v :
  0 <= v -> (length (nat_bits v) <= length (drop 2 (Py.bin v)))%nat.
Proof. rewrite bin_body. destruct v; simpl; lia. Qed.

(** Between two codes of one length that [int(_, 16)] reads as natural
    numbers, the distance is the Hamming distance of the two numbers on
    four bits for each character. *)
Lemma calculate_similarity_hamming a b va vb :
  String.length a = String.length b ->
  Py.int16 a = Some va -> Py.int16 b = Some vb ->
  0 <= va -> 0 <= vb ->
  calculate_similarity a b = hamming (String.length a * 4) va vb.
Proof.
  intros Hlen Ha Hb Pa Pb.
  rewrite (calculate_similarity_parsed _ _ _ _ Hlen Ha Hb), <- Hlen.
  pose proof (int16_chars_body_length _ _ Ha) as La.
  pose proof (int16_chars_body_length _ _ Hb) as Lb.
  rewrite length_chars in La, Lb. rewrite <- Hlen in Lb.
  rewrite !zfill_padded by done.
  apply sum_ne_padded; try done.
  - etrans; [by apply nat_bits_body|done].
  - etrans; [by apply nat_bits_body|done].
Qed.

Lemma hex_digit_plain c :
  is_Some (Py.hex_digit c) ->
  Py.Py_ISSPACE c = false /\ Py.is_underscore c = false /\
  (Py.code c =? 43) = false /\ (Py.code c =? 45) = false /\
  (Py.code c =? 120) = false /\ (Py.code c =? 88) = false.
Proof.
  destruct c as [[] [] [] [] [] [] [] []]; vm_compute;
    intros [d Hd]; try done.
Qed.

Lemma scan_digits_hex l : forall acc d,
  Forall (fun c => is_Some (Py.hex_digit c)) l -> 0 <= acc ->
  exists v, Py.scan_digits l false acc d = Some (v, (d + length l)%nat, []) /\ 0 <= v.
Proof.
  induction l as [|c l IH]; intros acc d Hall Hacc; simpl.
  - exists acc. by rewrite Nat.add_0_r.
  - apply Forall_cons in Hall as [Hc Hall].
    destruct (hex_digit_plain c Hc) as (_ & -> & _).
    destruct Hc as [dv Hdv]. rewrite Hdv.
    apply hex_digit_range in Hdv.
    destruct (IH (16 * acc + dv) (S d) Hall) as (v & Hv & Hpos); [lia|].
    exists v. split; [|done]. rewrite Hv. do 3 f_equal. lia.
Qed.

(** A non-empty code of hexadecimal digits parses, to a natural number. *)
Lemma hex_code_parses h :
  hex_code h -> h <> "" -> exists v, Py.int16 h = Some v /\ 0 <= v.
Proof.
  unfold hex_code, Py.int16. intros Hall Hne.
  destruct (Py.chars h) as [|c l] eqn:Hchars.
  { destruct h; done. }
  pose proof Hall as Hall'.
  apply Forall_cons in Hall as [Hc Hl].
  destruct (hex_digit_plain c Hc) as (Hsp & Hus & Hplus & Hminus & _).
  unfold Py.int16_chars. simpl Py.skip_space. rewrite Hsp.
  unfold Py.read_sign. rewrite Hplus, Hminus.
  assert (Py.read_prefix (c :: l) = c :: l) as ->.
  { unfold Py.read_prefix. destruct l as [|c1 l']; [done|].
    apply Forall_cons in Hl as [Hc1 _].
    destruct (hex_digit_plain c1 Hc1) as (_ & _ & _ & _ & -> & ->).
    by rewrite andb_false_r. }
  simpl Py.starts_with_underscore. rewrite Hus.
  destruct (scan_digits_hex (c :: l) 0 0%nat Hall') as (v & -> & Hv); [done|].
  simpl. exists v. split; [|done]. f_equal. lia.
Qed.

(** The Hamming distance, for the codes the fingerprint engine writes. *)
Lemma calculate_similarity_hex_codes a b :
  hex_code a -> hex_code b -> a <> "" ->
  String.length a = String.length b ->
  exists va vb,
    Py.int16 a = Some va /\ Py.int16 b = Some vb /\
    calculate_similarity a b = hamming (String.length a * 4) va vb.
Proof.
  intros Ha Hb Hne Hlen.
  destruct (hex_code_parses a Ha Hne) as (va & Hva & Pa).
  destruct (hex_code_parses b Hb) as (vb & Hvb & Pb).
  { intros ->. destruct a; done. }
  exists va, vb. split_and!; [done..|].
  by apply calculate_similarity_hamming.
Qed.


(** ** The ingest validator *)

Section Validator.
Context `{Externals}.

Lemma detect_type_error content e :
  detect_type content = inl e ->
  e = EHTTP {| status_code := 400; detail := "Unable to determine file type" |}.
Proof.
  unfold detect_type, try_except, exc_bind, call, raise_http.
  repeat case_match; intros; simplify_eq; done.
Qed.

Lemma detect_type_allowed content t :
  detect_type content = inr t ->
  magic_from_buffer content = inr t /\ t ∈ allowed_mime_types.
Proof.
  unfold detect_type, try_except, exc_bind, call, raise_http.
  destruct (magic_from_buffer content) as [msg|t']; [done|].
  case_bool_decide; [|done]. intros; simplify_eq. done.
Qed.

(** The validator raises nothing but the three [HTTPException]s. *)
Lemma validate_error file e :
  validate_and_process_image file = inl e ->
  exists h, e = EHTTP h /\
    (h = {| status_code := 413; detail := "File too large (max 10MB)" |} \/
     h = {| status_code := 400; detail := "Unable to determine file type" |} \/
     exists msg, h = {| status_code := 400; detail := "Invalid image file: " +:+ msg |}).
Proof.
  unfold validate_and_process_image.
  destruct (_ >? _).
  { intros [= <-]. eauto. }
  destruct (detect_type _) as [e'|t] eqn:Ht; simpl.
  { apply detect_type_error in Ht as ->. intros [= <-]. eauto. }
  unfold try_except, raise_http. case_match; [|done].
  intros [= <-]. eauto 6.
Qed.

Lemma validate_too_large file :
  Z.of_nat (length (upload_content file)) > max_file_size ->
  validate_and_process_image file = raise_http 413 "File too large (max 10MB)".
Proof.
  intros Hbig. unfold validate_and_process_image.
  by destruct (Z.gtb_spec (Z.of_nat (length (upload_content file))) max_file_size); [|lia].
Qed.

Lemma compute_hashes_keys image hashes :
  compute_hashes image = inr hashes ->
  exists a p d w,
    hashes = <["whash" := w]> (<["dhash" := d]> (<["phash" := p]> (<["ahash" := a]> ∅))).
Proof.
  unfold compute_hashes, exc_bind, call.
  repeat case_match; intros; simplify_eq. eauto.
Qed.

Lemma validate_result file result :
  validate_and_process_image file = inr result ->
  res_file_hash result = sha256_hexdigest (upload_content file) /\
  res_file_size result = Z.of_nat (length (upload_content file)) /\
  Z.of_nat (length (upload_content file)) <= max_file_size /\
  res_content_type result ∈ allowed_mime_types /\
  magic_from_buffer (upload_content file) = inr (res_content_type result) /\
  compute_hashes (res_image result) = inr (res_hashes result) /\
  res_image_size result = Image_size (res_image result).
Proof.
  unfold validate_and_process_image.
  destruct (Z.gtb_spec (Z.of_nat (length (upload_content file))) max_file_size);
    [done|].
  destruct (detect_type _) as [e'|t] eqn:Ht; simpl; [done|].
  apply detect_type_allowed in Ht as [Hmagic Hin].
  unfold try_except, exc_bind, raise_http.
  repeat case_match; intros; simplify_eq; simpl; split_and!; try done; lia.
Qed.

Lemma validate_same_content file1 file2 :
  upload_content file1 = upload_content file2 ->
  validate_and_process_image file1 = validate_and_process_image file2.
Proof. unfold validate_and_process_image. by intros ->. Qed.

Lemma validate_hashes file result :
  validate_and_process_image file = inr result ->
  exists a p d w,
    res_hashes result =
      <["whash" := w]> (<["dhash" := d]> (<["phash" := p]> (<["ahash" := a]> ∅))).
Proof.
  intros Hv. apply validate_result in Hv as (_ & _ & _ & _ & _ & Hh & _).
  by apply compute_hashes_keys in Hh.
Qed.

(** With the four codes the validator computes, [ImageLink(...)] is built
    without a [KeyError]. *)
Lemma new_image_link_ok env link_url file result :
  validate_and_process_image file = inr result ->
  exists image_link,
    new_image_link env link_url file result = inr image_link /\
    id image_link = uuid4 env /\
    url image_link = link_url /\
    file_hash image_link = res_file_hash result /\
    filename image_link = filename_or_unknown file /\
    created_at image_link = utcnow env /\
    updated_at image_link = None /\
    (forall algorithm, algorithm ∈ algorithms ->
       doc_hash algorithm image_link = res_hashes result !! algorithm /\
       is_Some (res_hashes result !! algorithm)).
Proof.
  intros Hv. destruct (validate_hashes _ _ Hv) as (a & p & d & w & Hh).
  unfold new_image_link, getitem. rewrite Hh. simplify_map_eq. simpl.
  eexists. split_and!; try done.
  intros algorithm Halg. unfold algorithms in Halg.
  repeat (apply elem_of_cons in Halg as [->|Halg]); [..|by apply elem_of_nil in Halg];
    simpl; simplify_map_eq; eauto.
Qed.

End Validator.

(** ** The collection *)

Lemma find_one_Some h db d :
  find_one h db = Some d <->
  exists i, list_find (fun d => file_hash d = h) (image_links db) = Some (i, d).
Proof.
  unfold find_one. destruct (list_find _ _) as [[i d']|]; simpl; split.
  - intros [= ->]. eauto.
  - by intros [j [= _ ->]].
  - done.
  - by intros [j ?].
Qed.

Lemma find_one_None h db :
  find_one h db = None <-> h ∉ checksums db.
Proof.
  unfold find_one, checksums. rewrite fmap_None, list_find_None, Forall_forall.
  rewrite list_elem_of_fmap. split.
  - intros Hall (d & -> & Hd). by apply (Hall d).
  - intros Hn d Hd Heq. apply Hn. eauto.
Qed.

Lemma find_one_file_hash h db d : find_one h db = Some d -> file_hash d = h.
Proof.
  intros [i Hi]%find_one_Some. by apply list_find_Some in Hi as (_ & ? & _).
Qed.

Lemma file_hash_set_url u t d : file_hash (set_url u t d) = file_hash d.
Proof. done. Qed.

Lemma checksums_update_one h u t db : checksums (update_one h u t db) = checksums db.
Proof.
  unfold checksums, update_one. simpl.
  destruct (list_find _ _) as [[i d]|] eqn:Hfind; [|done].
  apply list_find_Some in Hfind as (Hi & _ & _).
  rewrite list_fmap_insert. apply list_insert_id.
  by rewrite list_lookup_fmap, Hi.
Qed.

Lemma checksums_insert_one d db :
  checksums (insert_one d db) = checksums db ++ [file_hash d].
Proof. unfold checksums, insert_one. simpl. apply fmap_snoc. Qed.

Lemma checksums_delete_one i db :
  checksums (delete_one i db).2 `sublist_of` checksums db.
Proof.
  unfold checksums, delete_one.
  destruct (list_find _ _) as [[k d]|]; simpl; [|done].
  rewrite list_fmap_delete. apply sublist_delete.
Qed.

Lemma image_links_update_one h u t db i d :
  list_find (fun d => file_hash d = h) (image_links db) = Some (i, d) ->
  image_links (update_one h u t db) = <[i := set_url u t d]> (image_links db).
Proof. unfold update_one. simpl. by intros ->. Qed.

Lemma find_one_update_one h u t db d :
  find_one h db = Some d ->
  find_one h (update_one h u t db) = Some (set_url u t d).
Proof.
  intros [i Hi]%find_one_Some. apply find_one_Some. exists i.
  rewrite (image_links_update_one _ _ _ _ _ _ Hi).
  apply list_find_Some in Hi as (Hi & Hd & Hfirst).
  apply list_find_Some. split_and!.
  - apply list_lookup_insert_eq. by eapply lookup_lt_Some.
  - done.
  - intros j y Hj Hlt. rewrite list_lookup_insert_ne in Hj by lia. eauto.
Qed.

Lemma find_one_insert_one h d db :
  find_one h db = None -> file_hash d = h ->
  find_one h (insert_one d db) = Some d.
Proof.
  unfold find_one, insert_one. simpl. intros Hnone%fmap_None Hd.
  rewrite list_find_app_r by done. simpl. by rewrite decide_True.
Qed.

(** ** [link_image_to_url] *)

Section LinkTheory.
Context `{Externals}.

Lemma link_updated env link_url file db result i existing :
  validate_and_process_image file = inr result ->
  list_find (fun d => file_hash d = res_file_hash result) (image_links db)
    = Some (i, existing) ->
  link_image_to_url env link_url file db =
    (inr (updated ("Updated URL for existing image: " +:+ fmt_filename file)
            (id existing) link_url),
     {| image_links := <[i := set_url link_url (utcnow env) existing]> (image_links db);
        commands := commands db
                    ++ [UpdateOne (res_file_hash result) link_url (utcnow env)] |}).
Proof.
  intros Hv Hfind. unfold link_image_to_url, link_body. rewrite Hv.
  unfold find_one, update_one. rewrite Hfind. done.
Qed.

Lemma link_created env link_url file db result :
  validate_and_process_image file = inr result ->
  find_one (res_file_hash result) db = None ->
  exists image_link,
    new_image_link env link_url file result = inr image_link /\
    link_image_to_url env link_url file db =
      (inr (created ("Successfully linked " +:+ fmt_filename file
                       +:+ " to " +:+ link_url)
              (uuid4 env) link_url (res_hashes result)),
       insert_one image_link db).
Proof.
  intros Hv Hfind.
  destruct (new_image_link_ok env link_url file result Hv)
    as (image_link & Hnew & Hid & _).
  exists image_link. split; [done|].
  unfold link_image_to_url, link_body. rewrite Hv, Hfind, Hnew. simpl.
  by rewrite Hid.
Qed.

Lemma link_error env link_url file db e :
  validate_and_process_image file = inl e ->
  link_image_to_url env link_url file db = (http_errors (inl e), db).
Proof.
  intros Hv. unfold link_image_to_url, link_body. by rewrite Hv.
Qed.

(** What a link does to the list of checksums. *)
Lemma link_checksums env link_url file db :
  checksums (link_image_to_url env link_url file db).2 = checksums db \/
  (exists h, (h ∉ checksums db) /\
     checksums (link_image_to_url env link_url file db).2 = checksums db ++ [h]).
Proof.
  destruct (validate_and_process_image file) as [e|result] eqn:Hv.
  { rewrite (link_error _ _ _ _ _ Hv). by left. }
  destruct (find_one (res_file_hash result) db) as [existing|] eqn:Hfind.
  - apply find_one_Some in Hfind as [i Hi].
    rewrite (link_updated _ _ _ _ _ _ _ Hv Hi). left. simpl.
    pose proof (checksums_update_one (res_file_hash result) link_url (utcnow env) db) as Hc.
    unfold checksums in *. by rewrite (image_links_update_one _ _ _ _ _ _ Hi) in Hc.
  - destruct (link_created env link_url file db result Hv Hfind)
      as (image_link & Hnew & ->).
    right. exists (res_file_hash result). split; [by apply find_one_None|].
    simpl. rewrite checksums_insert_one. do 2 f_equal.
    destruct (new_image_link_ok env link_url file result Hv)
      as (image_link' & Hnew' & _ & _ & Hfh & _).
    congruence.
Qed.

Lemma link_preserves_unique env link_url file db :
  unique_checksums db ->
  unique_checksums (link_image_to_url env link_url file db).2.
Proof.
  unfold unique_checksums. intros Hu.
  destruct (link_checksums env link_url file db) as [->|(h & Hh & ->)]; [done|].
  apply NoDup_app. split_and!; [done| |apply NoDup_singleton].
  intros x Hx ->%list_elem_of_singleton. done.
Qed.

Lemma handle_preserves_unique r db :
  unique_checksums db -> unique_checksums (handle r db).
Proof.
  intros Hu. destruct r as [env link_url file|file threshold| |image_id]; simpl.
  - by apply link_preserves_unique.
  - done.
  - done.
  - unfold delete_stored_image.
    pose proof (checksums_delete_one image_id db) as Hsub.
    destruct (delete_one image_id db) as [n db']; simpl in *.
    assert (unique_checksums db') by (by eapply sublist_NoDup).
    by destruct (n =? 0).
Qed.

Lemma reachable_unique db : reachable db -> unique_checksums db.
Proof.
  induction 1 as [|db r _ IH]; [apply NoDup_nil_2|]. by apply handle_preserves_unique.
Qed.

Lemma unique_checksums_lookup db i j d1 d2 :
  unique_checksums db ->
  image_links db !! i = Some d1 -> image_links db !! j = Some d2 ->
  file_hash d1 = file_hash d2 -> i = j.
Proof.
  intros Hu Hi Hj Heq.
  eapply (NoDup_lookup _ i j (file_hash d1) Hu);
    unfold checksums; rewrite list_lookup_fmap.
  - by rewrite Hi.
  - by rewrite Hj, Heq.
Qed.

(** After the link of a valid file a document with its checksum is in
    the collection, and exactly one command has been sent. *)
Lemma link_leaves_document env link_url file db result :
  validate_and_process_image file = inr result ->
  (exists stored,
     find_one (res_file_hash result)
       (link_image_to_url env link_url file db).2 = Some stored) /\
  (exists c, commands (link_image_to_url env link_url file db).2 = commands db ++ [c]).
Proof.
  intros Hv.
  destruct (find_one (res_file_hash result) db) as [existing|] eqn:Hfind.
  - pose proof Hfind as [i Hi]%find_one_Some.
    rewrite (link_updated _ _ _ _ _ _ _ Hv Hi). simpl. split; [|eauto].
    pose proof (find_one_update_one _ link_url (utcnow env) _ _ Hfind) as Hup.
    unfold find_one in *. simpl.
    rewrite (image_links_update_one _ _ _ _ _ _ Hi) in Hup. eauto.
  - destruct (link_created env link_url file db result Hv Hfind)
      as (image_link & Hnew & ->).
    destruct (new_image_link_ok env link_url file result Hv)
      as (image_link' & Hnew' & _ & _ & Hfh & _).
    assert (image_link' = image_link) as -> by congruence.
    simpl. split; [|eauto]. exists image_link. by apply find_one_insert_one.
Qed.

End LinkTheory.

(** ** The link service: claims *)

Section LinkClaims.
Context `{Externals}.

(** C4: a link whose image passes validation answers and sends exactly
    one write command.  When a document with the checksum exists, the
    command is an update, no document is added and the answer is
    [updated] with the id of that document.  When none exists, the
    command is the insert of a new document carrying the id that
    [uuid4] gave, and the answer is [created] with that id; a later
    link of the same bytes, under any url, then answers [updated] with
    the same id, adds no document, and leaves the document of that
    checksum with the later url. *)
Theorem link_image_to_url_one_write env link_url file db result :
  validate_and_process_image file = inr result ->
  exists response db',
    link_image_to_url env link_url file db = (inr response, db') /\
    (exists c, commands db' = commands db ++ [c]) /\
    match find_one (res_file_hash result) db with
    | Some existing =>
        (exists message, response = updated message (id existing) link_url) /\
        commands db' =
          commands db ++ [UpdateOne (res_file_hash result) link_url (utcnow env)] /\
        length (image_links db') = length (image_links db)
    | None =>
        exists image_link,
          (exists message,
             response = created message (uuid4 env) link_url (res_hashes result)) /\
          id image_link = uuid4 env /\
          url image_link = link_url /\
          file_hash image_link = res_file_hash result /\
          image_links db' = image_links db ++ [image_link] /\
          commands db' = commands db ++ [InsertOne image_link] /\
          forall env' link_url' file',
            upload_content file' = upload_content file ->
            exists message' db'' stored,
              link_image_to_url env' link_url' file' db' =
                (inr (updated message' (uuid4 env) link_url'), db'') /\
              find_one (res_file_hash result) db'' = Some stored /\
              id stored = uuid4 env /\
              url stored = link_url' /\
              length (image_links db'') = length (image_links db')
    end.
Proof.
  intros Hv.
  destruct (find_one (res_file_hash result) db) as [existing|] eqn:Hfind.
  - apply find_one_Some in Hfind as [i Hi].
    rewrite (link_updated _ _ _ _ _ _ _ Hv Hi).
    eexists _, _. split; [done|]. simpl. split_and!; eauto.
    apply length_insert.
  - destruct (link_created env link_url file db result Hv Hfind)
      as (image_link & Hnew & ->).
    destruct (new_image_link_ok env link_url file result Hv)
      as (image_link' & Hnew' & Hid & Hurl & Hfh & _).
    assert (image_link' = image_link) as -> by congruence.
    eexists _, _. split; [done|]. simpl. split; [eauto|].
    exists image_link. split_and!; eauto.
    intros env' link_url' file' Hsame.
    assert (validate_and_process_image file' = inr result) as Hv'
      by (by rewrite (validate_same_content file' file)).
    pose proof (find_one_insert_one _ image_link db Hfind Hfh) as Hfound.
    pose proof Hfound as [i Hi]%find_one_Some.
    rewrite (link_updated _ _ _ _ _ _ _ Hv' Hi).
    eexists _, _, (set_url link_url' (utcnow env') image_link).
    split; [by rewrite Hid|]. split_and!.
    + pose proof (find_one_update_one _ link_url' (utcnow env') _ _ Hfound) as Hup.
      unfold find_one in *. simpl.
      by rewrite (image_links_update_one _ _ _ _ _ _ Hi) in Hup.
    + done.
    + done.
    + simpl. apply length_insert.
Qed.

(** C6: when the link finds a document with the checksum, at position
    [i], the collection afterwards is the old one with that document
    replaced by a document that differs from it in [url] and
    [updated_at] only; every other position holds what it held. *)
Theorem link_image_to_url_update_frame env link_url file db result i existing :
  validate_and_process_image file = inr result ->
  list_find (fun d => file_hash d = res_file_hash result) (image_links db)
    = Some (i, existing) ->
  exists message db' stored,
    link_image_to_url env link_url file db =
      (inr (updated message (id existing) link_url), db') /\
    length (image_links db') = length (image_links db) /\
    (forall j, j <> i -> image_links db' !! j = image_links db !! j) /\
    image_links db' !! i = Some stored /\
    url stored = link_url /\ updated_at stored = Some (utcnow env) /\
    id stored = id existing /\ filename stored = filename existing /\
    file_hash stored = file_hash existing /\
    ahash stored = ahash existing /\ phash stored = phash existing /\
    dhash stored = dhash existing /\ whash stored = whash existing /\
    content_type stored = content_type existing /\
    file_size stored = file_size existing /\
    image_width stored = image_width existing /\
    image_height stored = image_height existing /\
    created_at stored = created_at existing /\
    commands db' =
      commands db ++ [UpdateOne (res_file_hash result) link_url (utcnow env)].
Proof.
  intros Hv Hi. rewrite (link_updated _ _ _ _ _ _ _ Hv Hi).
  apply list_find_Some in Hi as (Hi & _).
  eexists _, _, (set_url link_url (utcnow env) existing).
  split; [done|]. simpl. split_and!; try done.
  - apply length_insert.
  - intros j Hj. by apply list_lookup_insert_ne.
  - apply list_lookup_insert_eq. by eapply lookup_lt_Some.
Qed.

(** C7: when the validator raises, it raises one of its three
    [HTTPException]s (too large, 413; type not allowed or not
    determined, 400; image not readable, 400); the link raises that same
    exception, and the store, its collection and the commands it has
    received, is the one before the call. *)
Theorem link_image_to_url_validation_error env link_url file db e :
  validate_and_process_image file = inl e ->
  exists h,
    e = EHTTP h /\
    (h = {| status_code := 413; detail := "File too large (max 10MB)" |} \/
     h = {| status_code := 400; detail := "Unable to determine file type" |} \/
     exists msg,
       h = {| status_code := 400; detail := "Invalid image file: " +:+ msg |}) /\
    link_image_to_url env link_url file db = (inl h, db).
Proof.
  intros Hv. rewrite (link_error _ _ _ _ _ Hv).
  apply validate_error in Hv as (h & -> & Hcases).
  exists h. split_and!; done.
Qed.

(** C9: the checksum the validator returns is the digest of the bytes
    as uploaded; the document a link leaves under that digest carries it
    as its [file_hash]; a second upload of the same bytes has the same
    checksum, and after both have been linked to a store with unique
    checksums the digest is the checksum of exactly one document. *)
Theorem file_hash_of_raw_bytes file result :
  validate_and_process_image file = inr result ->
  res_file_hash result = sha256_hexdigest (upload_content file) /\
  (forall env link_url db,
     exists stored,
       find_one (sha256_hexdigest (upload_content file))
         (link_image_to_url env link_url file db).2 = Some stored /\
       file_hash stored = sha256_hexdigest (upload_content file)) /\
  (forall file', upload_content file' = upload_content file ->
     exists result', validate_and_process_image file' = inr result' /\
                     res_file_hash result' = res_file_hash result) /\
  (forall env link_url db env' link_url' file',
     upload_content file' = upload_content file ->
     unique_checksums db ->
     let db2 := (link_image_to_url env' link_url' file'
                   (link_image_to_url env link_url file db).2).2 in
     exists i stored,
       image_links db2 !! i = Some stored /\
       file_hash stored = sha256_hexdigest (upload_content file) /\
       forall j other, image_links db2 !! j = Some other ->
         file_hash other = sha256_hexdigest (upload_content file) -> j = i).
Proof.
  intros Hv.
  pose proof (validate_result _ _ Hv) as (Hfh & _).
  assert (forall env link_url db, exists stored,
            find_one (res_file_hash result)
              (link_image_to_url env link_url file db).2 = Some stored) as Hstored.
  { intros env link_url db.
    destruct (link_leaves_document env link_url file db result Hv)
      as [Hs _]. exact Hs. }
  split_and!.
  - done.
  - intros env link_url db. destruct (Hstored env link_url db) as [stored Hs].
    rewrite <- Hfh. exists stored. split; [done|]. by eapply find_one_file_hash.
  - intros file' Hsame. exists result. split; [|done].
    by rewrite (validate_same_content file' file).
  - intros env link_url db env' link_url' file' Hsame Hu db2.
    assert (validate_and_process_image file' = inr result) as Hv'
      by (by rewrite (validate_same_content file' file)).
    assert (unique_checksums db2) as Hu2
      by (by do 2 apply link_preserves_unique).
    destruct (link_leaves_document env' link_url' file'
                (link_image_to_url env link_url file db).2 result Hv')
      as [[stored Hs] _].
    fold db2 in Hs. pose proof (find_one_file_hash _ _ _ Hs) as Hsh.
    apply find_one_Some in Hs as [i Hi].
    apply list_find_Some in Hi as (Hi & _).
    exists i, stored. rewrite <- Hfh. split_and!; [done..|].
    intros j other Hj Ho. eapply unique_checksums_lookup; eauto. congruence.
Qed.

(** C5: a store that a sequence of link, scan, list and delete requests
    reaches from the empty store has no two documents with one
    checksum, and no request breaks this; a link leaves the list of
    checksums as it is or appends one checksum that was not in it. *)
Theorem reachable_unique_checksums db :
  reachable db ->
  unique_checksums db /\
  (forall r, unique_checksums (handle r db)) /\
  (forall i j d1 d2,
     image_links db !! i = Some d1 -> image_links db !! j = Some d2 ->
     file_hash d1 = file_hash d2 -> i = j) /\
  (forall env link_url file,
     checksums (handle (Link env link_url file) db) = checksums db \/
     (exists h, (h ∉ checksums db) /\
        checksums (handle (Link env link_url file) db) = checksums db ++ [h])).
Proof.
  intros Hr. pose proof (reachable_unique db Hr) as Hu. split_and!.
  - done.
  - intros r. by apply handle_preserves_unique.
  - intros i j d1 d2. by apply unique_checksums_lookup.
  - intros env link_url file. apply link_checksums.
Qed.

End LinkClaims.

(** ** The minimum over the algorithms *)

Lemma foldl_min_value l : forall m0,
  let r := foldl (fun m (kv : string * Z) => if kv.2 <? m then kv.2 else m) m0 l in
  r <= m0 /\ (forall kv, kv ∈ l -> r <= kv.2) /\
  (r = m0 \/ exists kv, kv ∈ l /\ kv.2 = r).
Proof.
  induction l as [|kv l IH]; intros m0; simpl.
  - split_and!; [lia| |by left]. intros kv Hkv. by apply elem_of_nil in Hkv.
  - destruct (IH (if kv.2 <? m0 then kv.2 else m0)) as (Hle & Hall & Hex).
    destruct (Z.ltb_spec kv.2 m0) as [Hlt|Hge]; split_and!.
    + lia.
    + intros kv' [->|Hin]%elem_of_cons; [lia|by apply Hall].
    + right. destruct Hex as [->|(kv' & Hin & <-)].
      * exists kv. split; [left|done].
      * exists kv'. split; [by right|done].
    + lia.
    + intros kv' [->|Hin]%elem_of_cons; [lia|by apply Hall].
    + destruct Hex as [->|(kv' & Hin & <-)]; [by left|].
      right. exists kv'. split; [by right|done].
Qed.

Lemma min_value_Some l d :
  min_value l = Some d <->
  (exists kv, kv ∈ l /\ kv.2 = d) /\ forall kv, kv ∈ l -> d <= kv.2.
Proof.
  destruct l as [|kv0 l]; simpl.
  - split; [done|]. intros [(kv & Hin & _) _]. by apply elem_of_nil in Hin.
  - pose proof (foldl_min_value l kv0.2) as (Hle & Hall & Hex). simpl in *.
    split.
    + intros [= <-]. split.
      * destruct Hex as [->|(kv & Hin & <-)].
        -- exists kv0. split; [left|done].
        -- exists kv. split; [by right|done].
      * intros kv [->|Hin]%elem_of_cons; [lia|by apply Hall].
    + intros [(kv & Hin & <-) Hmin]. f_equal.
      assert (forall kv', kv' ∈ kv0 :: l ->
                foldl (fun m (kv : string * Z) => if kv.2 <? m then kv.2 else m) kv0.2 l
                  <= kv'.2) as Hall'.
      { intros kv' [->|Hin']%elem_of_cons; [lia|by apply Hall]. }
      apply Z.le_antisymm; [by apply Hall'|].
      destruct Hex as [->|(kv' & Hin' & <-)]; apply Hmin; [left|by right].
Qed.

Lemma min_value_None l : min_value l = None <-> l = [].
Proof. by destruct l. Qed.

Lemma foldl_min_key l : forall kv0,
  let best := foldl (fun best (kv : string * Z) => if kv.2 <? best.2 then kv else best)
                kv0 l in
  best ∈ kv0 :: l /\
  best.2 = foldl (fun m (kv : string * Z) => if kv.2 <? m then kv.2 else m) kv0.2 l.
Proof.
  induction l as [|kv l IH]; intros kv0; simpl.
  - split; [left|done].
  - destruct (IH (if kv.2 <? kv0.2 then kv else kv0)) as (Hin & Heq).
    split.
    + destruct (kv.2 <? kv0.2).
      * by right.
      * apply elem_of_cons in Hin as [->|Hin]; [left|by do 2 right].
    + rewrite Heq. by destruct (kv.2 <? kv0.2).
Qed.

Lemma min_key_Some l : forall d,
  min_value l = Some d -> exists k, min_key l = Some k /\ (k, d) ∈ l.
Proof.
  destruct l as [|kv0 l]; simpl; [done|]. intros d [= <-].
  pose proof (foldl_min_key l kv0) as (Hin & Heq). simpl in *.
  eexists. split; [done|]. rewrite <- Heq.
  by destruct (foldl _ kv0 l).
Qed.

(** ** The candidates of a scan *)

Section Candidates.
Context (query_hashes : gmap string string).

Lemma elem_of_distances_of stored_image algorithm d :
  (algorithm, d) ∈ distances_of query_hashes stored_image <->
  distance_under query_hashes stored_image algorithm d.
Proof.
  unfold distances_of, distance_under. rewrite list_elem_of_omap. split.
  - intros (alg & Hin & Hsome).
    destruct (query_hashes !! alg) as [q|] eqn:Hq; [|done].
    destruct (doc_hash alg stored_image) as [s|] eqn:Hs; [|done].
    injection Hsome as -> <-. eauto 6.
  - intros (Hin & q & s & Hq & Hs & ->). exists algorithm.
    by rewrite Hq, Hs.
Qed.

Lemma min_value_candidate_min stored_image d :
  min_value (distances_of query_hashes stored_image) = Some d <->
  candidate_min query_hashes stored_image d.
Proof.
  rewrite min_value_Some. unfold candidate_min. split.
  - intros [([alg d'] & Hin & <-) Hmin]. split.
    + exists alg. by apply elem_of_distances_of.
    + intros alg' d'' Hd. apply (Hmin (alg', d'')). by apply elem_of_distances_of.
  - intros [(alg & Hd) Hmin]. split.
    + exists (alg, d). split; [by apply elem_of_distances_of|done].
    + intros [alg' d'] Hin. simpl. apply (Hmin alg'). by apply elem_of_distances_of.
Qed.

Lemma candidate_min_unique stored_image d d' :
  candidate_min query_hashes stored_image d ->
  candidate_min query_hashes stored_image d' -> d = d'.
Proof.
  intros [(a1 & H1) M1] [(a2 & H2) M2].
  apply Z.le_antisymm; eauto.
Qed.

Lemma distance_under_nonneg stored_image algorithm d :
  distance_under query_hashes stored_image algorithm d -> 0 <= d.
Proof. intros (_ & q & s & _ & _ & ->). apply calculate_similarity_nonneg. Qed.

Lemma candidate_min_nonneg stored_image d :
  candidate_min query_hashes stored_image d -> 0 <= d.
Proof. intros [(alg & Hd) _]. by eapply distance_under_nonneg. Qed.

Lemma scan_one_skip threshold st x :
  min_value (distances_of query_hashes x) = None ->
  scan_one query_hashes threshold st x = st.
Proof. unfold scan_one. by intros ->. Qed.

Lemma scan_one_candidate threshold st x d algorithm :
  min_value (distances_of query_hashes x) = Some d ->
  min_key (distances_of query_hashes x) = Some algorithm ->
  scan_one query_hashes threshold st x =
    if (d <=? threshold) && lt_best d (best_distance st)
    then {| best_distance := Some d;
            best_match :=
              Some {| match_id := id x;
                      match_filename := filename x;
                      match_url := url x;
                      distance := d;
                      similarity_percentage := Z.max 0 (100 - d * 10);
                      algorithm_used := algorithm;
                      match_created_at := created_at x |} |}
    else st.
Proof. unfold scan_one. by intros -> ->. Qed.

(** The state of the loop after the candidates [l]. *)
Lemma scan_loop_invariant threshold l :
  match best_match (scan_loop query_hashes threshold l) with
  | None =>
      best_distance (scan_loop query_hashes threshold l) = None /\
      forall j other d', l !! j = Some other ->
        candidate_min query_hashes other d' -> threshold < d'
  | Some m =>
      best_distance (scan_loop query_hashes threshold l) = Some (distance m) /\
      distance m <= threshold /\
      similarity_percentage m = Z.max 0 (100 - distance m * 10) /\
      exists i stored_image,
        first_best query_hashes l i stored_image (distance m) /\
        match_id m = id stored_image /\
        match_filename m = filename stored_image /\
        match_url m = url stored_image /\
        match_created_at m = created_at stored_image /\
        distance_under query_hashes stored_image (algorithm_used m) (distance m)
  end.
Proof.
  unfold scan_loop. induction l as [|x l IH] using rev_ind.
  { simpl. split; [done|]. intros j other d' Hj. by rewrite lookup_nil in Hj. }
  rewrite foldl_snoc.
  set (st := foldl (scan_one query_hashes threshold)
               {| best_match := None; best_distance := None |} l) in *.
  destruct (min_value (distances_of query_hashes x)) as [d|] eqn:Hmin.
  2:{ (* no common algorithm: the state is kept *)
      rewrite (scan_one_skip _ _ _ Hmin).
      apply min_value_None in Hmin.
      assert (forall d', ~ candidate_min query_hashes x d') as Hno.
      { intros d' [(alg & Hd%elem_of_distances_of) _]. rewrite Hmin in Hd.
        by apply elem_of_nil in Hd. }
      destruct (best_match st) as [m|].
      - destruct IH as (Hbd & Hle & Hsim & i & doc & (Hi & Hcm & Hbest) & Hrest).
        split_and!; [done..|]. exists i, doc. split; [|done].
        split_and!; [by apply lookup_app_l_Some|done|].
        intros j other d' [Hj|[_ Hj]]%lookup_app_Some; [by eauto|].
        apply list_lookup_singleton_Some in Hj as [_ <-]. intros Hc. by destruct (Hno d').
      - destruct IH as (Hbd & Hall). split; [done|].
        intros j other d' [Hj|[_ Hj]]%lookup_app_Some; [by eauto|].
        apply list_lookup_singleton_Some in Hj as [_ <-]. intros Hc. by destruct (Hno d'). }
  destruct (min_key_Some _ _ Hmin) as (alg & Hkey & Halg).
  rewrite (scan_one_candidate _ _ _ _ _ Hmin Hkey).
  apply elem_of_distances_of in Halg.
  apply min_value_candidate_min in Hmin.
  assert (forall j other d', [x] !! j = Some other ->
            candidate_min query_hashes other d' -> d' = d) as Hx.
  { intros j other d' [_ <-]%list_lookup_singleton_Some Hc.
    by eapply candidate_min_unique. }
  destruct (Z.leb_spec d threshold) as [Hthr|Hthr]; simpl.
  - destruct (best_match st) as [m|] eqn:Hbm.
    + destruct IH as (Hbd & Hle & Hsim & i & doc & (Hi & Hcm & Hbest) & Hrest).
      rewrite Hbd. simpl. destruct (Z.ltb_spec d (distance m)) as [Hlt|Hge]; simpl.
      * split_and!; [done..|]. exists (length l), x.
        split; [|done]. split_and!; [by apply list_lookup_middle|done|].
        intros j other d' [Hj|[Hge Hj]]%lookup_app_Some Hc.
        -- destruct (Hbest j other d' Hj Hc). apply lookup_lt_Some in Hj. lia.
        -- rewrite (Hx _ _ _ Hj Hc). lia.
      * rewrite Hbm. split_and!; [done..|]. exists i, doc. split; [|done].
        split_and!; [by apply lookup_app_l_Some|done|].
        intros j other d' [Hj|[Hge' Hj]]%lookup_app_Some Hc; [by eauto|].
        rewrite (Hx _ _ _ Hj Hc). apply lookup_lt_Some in Hi. lia.
    + destruct IH as (Hbd & Hall). rewrite Hbd. simpl.
      split_and!; [done..|]. exists (length l), x.
      split; [|done]. split_and!; [by apply list_lookup_middle|done|].
      intros j other d' [Hj|[Hge Hj]]%lookup_app_Some Hc.
      * pose proof (Hall j other d' Hj Hc). apply lookup_lt_Some in Hj. lia.
      * rewrite (Hx _ _ _ Hj Hc). lia.
  - destruct (best_match st) as [m|] eqn:Hbm.
    + destruct IH as (Hbd & Hle & Hsim & i & doc & (Hi & Hcm & Hbest) & Hrest).
      split_and!; [done..|]. exists i, doc. split; [|done].
      split_and!; [by apply lookup_app_l_Some|done|].
      intros j other d' [Hj|[Hge' Hj]]%lookup_app_Some Hc; [by eauto|].
      rewrite (Hx _ _ _ Hj Hc). apply lookup_lt_Some in Hi. lia.
    + destruct IH as (Hbd & Hall). split; [done|].
      intros j other d' [Hj|[Hge Hj]]%lookup_app_Some Hc; [by eauto|].
      by rewrite (Hx _ _ _ Hj Hc).
Qed.

End Candidates.

(** ** The scan service: claims *)

Section ScanClaims.
Context `{Externals}.

Lemma scan_body_valid file threshold db result :
  validate_and_process_image file = inr result ->
  scan_body file threshold db =
    match best_match (scan_loop (res_hashes result) threshold (find_all db)) with
    | Some m =>
        inr (match_found ("Found matching image: " +:+ match_filename m) m
               (match_url m) (length (find_all db)))
    | None => inr (no_match (length (find_all db)) threshold)
    end.
Proof. unfold scan_body. by intros ->. Qed.

Lemma scan_valid file threshold db result :
  validate_and_process_image file = inr result ->
  scan_image_for_url file threshold db =
    (match best_match (scan_loop (res_hashes result) threshold (find_all db)) with
     | Some m =>
         inr (match_found ("Found matching image: " +:+ match_filename m) m
                (match_url m) (length (find_all db)))
     | None => inr (no_match (length (find_all db)) threshold)
     end, db).
Proof.
  intros Hv. unfold scan_image_for_url. rewrite (scan_body_valid _ _ _ _ Hv).
  by destruct (best_match _).
Qed.

Lemma scan_match_found file threshold db message m redirect total db' :
  scan_image_for_url file threshold db =
    (inr (match_found message m redirect total), db') ->
  exists result,
    validate_and_process_image file = inr result /\
    best_match (scan_loop (res_hashes result) threshold (find_all db)) = Some m.
Proof.
  destruct (validate_and_process_image file) as [e|result] eqn:Hv.
  - unfold scan_image_for_url, scan_body. rewrite Hv. simpl. by destruct e.
  - rewrite (scan_valid _ _ _ _ Hv). exists result. split; [done|].
    destruct (best_match _) as [m'|]; [|done]. intros; simplify_eq. done.
Qed.

(** Documents past the first 1000 of the collection are no candidates. *)
Lemma scan_fetch_cap file threshold db :
  (scan_image_for_url file threshold db).1 =
    (scan_image_for_url file threshold
       {| image_links := take 1000 (image_links db); commands := commands db |}).1.
Proof.
  unfold scan_image_for_url, scan_body, find_all. simpl. by rewrite take_take, Nat.min_id.
Qed.

(** C1: on a valid query image the scan answers, and leaves the store
    as it is.  It answers [match_found] exactly when the first among the
    fetched candidates of least per-candidate minimum distance has that
    minimum at or below the threshold; the match then reports that
    candidate, that distance and an algorithm that attains it.
    Otherwise it answers [no_match], and every candidate that has a
    minimum has it above the threshold.  The candidates are the
    documents the fetch returns, in its order (the first 1000 of the
    collection), and the minimum of a candidate runs over the
    algorithms for which both the query and the candidate have a
    code. *)
Theorem scan_image_for_url_best_match file threshold db result :
  validate_and_process_image file = inr result ->
  exists response,
    scan_image_for_url file threshold db = (inr response, db) /\
    find_all db = take 1000 (image_links db) /\
    ((exists message m redirect total,
        response = match_found message m redirect total) <->
     (exists i stored_image d,
        first_best (res_hashes result) (find_all db) i stored_image d /\
        d <= threshold)) /\
    match response with
    | match_found message m redirect total =>
        total = length (find_all db) /\
        redirect = match_url m /\
        distance m <= threshold /\
        exists i stored_image,
          first_best (res_hashes result) (find_all db) i stored_image (distance m) /\
          match_id m = id stored_image /\
          match_filename m = filename stored_image /\
          match_url m = url stored_image /\
          match_created_at m = created_at stored_image /\
          distance_under (res_hashes result) stored_image
            (algorithm_used m) (distance m)
    | no_match total threshold_used =>
        total = length (find_all db) /\
        threshold_used = threshold /\
        forall j other d', find_all db !! j = Some other ->
          candidate_min (res_hashes result) other d' -> threshold < d'
    end.
Proof.
  intros Hv. rewrite (scan_valid _ _ _ _ Hv).
  pose proof (scan_loop_invariant (res_hashes result) threshold (find_all db)) as Hinv.
  destruct (best_match _) as [m|].
  - destruct Hinv as (_ & Hle & _ & i & stored_image & Hbest & Hrest).
    eexists. split; [done|]. split; [done|]. split.
    + split; [|by eauto]. intros _. exists i, stored_image, (distance m). done.
    + split_and!; try done. exists i, stored_image. done.
  - destruct Hinv as (_ & Hall).
    eexists. split; [done|]. split; [done|]. split.
    + split; [by intros (? & ? & ? & ? & ?)|].
      intros (i & stored_image & d & (Hi & Hc & _) & Hd).
      pose proof (Hall i stored_image d Hi Hc). lia.
    + done.
Qed.

(** C8: the similarity a match reports is [max(0, 100 - distance * 10)]
    over the integers: it lies between 0 and 100 and is 0 from
    distance 10 on. *)
Theorem scan_similarity_percentage file threshold db message m redirect total db' :
  scan_image_for_url file threshold db =
    (inr (match_found message m redirect total), db') ->
  similarity_percentage m = Z.max 0 (100 - distance m * 10) /\
  0 <= similarity_percentage m <= 100 /\
  (10 <= distance m -> similarity_percentage m = 0) /\
  (distance m < 10 -> similarity_percentage m = 100 - distance m * 10).
Proof.
  intros (result & Hv & Hm)%scan_match_found.
  pose proof (scan_loop_invariant (res_hashes result) threshold (find_all db)) as Hinv.
  rewrite Hm in Hinv.
  destruct Hinv as (_ & _ & Hsim & i & stored_image & (_ & Hc & _) & _).
  apply candidate_min_nonneg in Hc. rewrite Hsim. lia.
Qed.

(** C10: under a negative threshold the scan of a valid image answers
    [no_match], whatever the store holds, and no scan answers
    [match_found]. *)
Theorem scan_negative_threshold file threshold db :
  threshold < 0 ->
  (forall result, validate_and_process_image file = inr result ->
     scan_image_for_url file threshold db =
       (inr (no_match (length (find_all db)) threshold), db)) /\
  (forall message m redirect total db',
     scan_image_for_url file threshold db <>
       (inr (match_found message m redirect total), db')).
Proof.
  intros Hneg.
  assert (forall result,
            best_match (scan_loop (res_hashes result) threshold (find_all db)) = None)
    as Hnone.
  { intros result.
    pose proof (scan_loop_invariant (res_hashes result) threshold (find_all db)) as Hinv.
    destruct (best_match _) as [m|]; [|done].
    destruct Hinv as (_ & Hle & _ & i & stored_image & (_ & Hc & _) & _).
    apply candidate_min_nonneg in Hc. lia. }
  split.
  - intros result Hv. by rewrite (scan_valid _ _ _ _ Hv), Hnone.
  - intros message m redirect total db' (result & _ & Hm)%scan_match_found.
    by rewrite Hnone in Hm.
Qed.

End ScanClaims.

(** * Further properties *)

(** ** The validator *)

Section ValidatorMore.
Context `{Externals}.

(** X1: the validator answers 413 exactly when the upload has more than
    [10 * 1024 * 1024] bytes, whatever the libraries would say of it:
    the size is checked first, and an upload of exactly that size is
    not too large. *)
Theorem validate_too_large_iff file :
  validate_and_process_image file = raise_http 413 "File too large (max 10MB)" <->
  Z.of_nat (length (upload_content file)) > max_file_size.
Proof.
  split; [|apply validate_too_large].
  intros Hv. apply validate_error in Hv as Hcases.
  unfold validate_and_process_image in Hv.
  destruct (Z.gtb_spec (Z.of_nat (length (upload_content file))) max_file_size)
    as [Hgt|Hle]; [lia|].
  exfalso.
  destruct (detect_type _) as [e|t] eqn:Ht; simpl in Hv.
  - apply detect_type_error in Ht as ->. discriminate.
  - unfold try_except, raise_http in Hv. case_match; discriminate.
Qed.

(** X2: for an upload within the size limit, the validator answers 400
    [Unable to determine file type] exactly when the sniffer raises or
    names a type outside the allowed set; the message
    [Unsupported file type: ...] raised inside the [try] never leaves
    the validator, because the handler of that [try] catches it. *)
Theorem validate_type_error file :
  Z.of_nat (length (upload_content file)) <= max_file_size ->
  (validate_and_process_image file
     = raise_http 400 "Unable to determine file type" <->
   ~ exists t, magic_from_buffer (upload_content file) = inr t /\
               t ∈ allowed_mime_types) /\
  (forall t, validate_and_process_image file
               <> raise_http 400 ("Unsupported file type: " +:+ t)).
Proof.
  intros Hle. split.
  - unfold validate_and_process_image.
    destruct (Z.gtb_spec (Z.of_nat (length (upload_content file))) max_file_size)
      as [Hgt|_]; [lia|].
    destruct (detect_type _) as [e|t] eqn:Ht; simpl.
    + apply detect_type_error in Ht as He. subst e. split; [|done].
      intros _ (t & Hm & Hin). unfold detect_type, try_except, exc_bind, call in Ht.
      rewrite Hm in Ht. by rewrite bool_decide_eq_true_2 in Ht.
    + apply detect_type_allowed in Ht as [Hm Hin]. split.
      * unfold try_except, raise_http. case_match; discriminate.
      * intros Hno. destruct Hno. eauto.
  - intros t Hv. apply validate_error in Hv as (h & [= <-] & Hcases).
    destruct Hcases as [?|[?|[msg ?]]]; discriminate.
Qed.

Lemma validate_hashes_dom file result :
  validate_and_process_image file = inr result ->
  forall algorithm,
    is_Some (res_hashes result !! algorithm) <-> algorithm ∈ algorithms.
Proof.
  intros Hv algorithm.
  destruct (validate_hashes _ _ Hv) as (a & p & d & w & ->).
  unfold algorithms. rewrite !elem_of_cons, elem_of_nil.
  rewrite !lookup_insert_is_Some, lookup_empty, is_Some_alt. split.
  - intros [<-|[_ [<-|[_ [<-|[_ [<-|[_ []]]]]]]]]; auto.
  - intros [->|[->|[->|[->|[]]]]];
      repeat (first [by left | right; split; [done|]]).
Qed.

(** X3: a successful validation returns codes under exactly the four
    names the scan iterates over; so the link builds its document
    without a missing key, with these codes as the four codes of the
    document, and the scan compares under every algorithm. *)
Theorem validate_hashes_keys file result :
  validate_and_process_image file = inr result ->
  (forall algorithm,
     is_Some (res_hashes result !! algorithm) <-> algorithm ∈ algorithms) /\
  (forall env link_url,
     exists image_link,
       new_image_link env link_url file result = inr image_link /\
       forall algorithm, algorithm ∈ algorithms ->
         doc_hash algorithm image_link = res_hashes result !! algorithm).
Proof.
  intros Hv. split; [exact (validate_hashes_dom file result Hv)|].
  intros env link_url.
  destruct (new_image_link_ok env link_url file result Hv)
    as (image_link & Hnew & _ & _ & _ & _ & _ & _ & Hcodes).
  exists image_link. split; [done|].
  intros algorithm Halg. by destruct (Hcodes algorithm Halg).
Qed.

End ValidatorMore.

(** ** The distance *)

Lemma sum_ne_triangle l1 : forall l2 l3,
  length l1 = length l2 -> length l2 = length l3 ->
  Py.sum_ne l1 l3 <= Py.sum_ne l1 l2 + Py.sum_ne l2 l3.
Proof.
  induction l1 as [|a l1 IH]; intros [|b l2] [|c l3] H12 H23; simpl in *; try done.
  specialize (IH l2 l3 ltac:(congruence) ltac:(congruence)).
  assert (Py.ne_int a c <= Py.ne_int a b + Py.ne_int b c); [|lia].
  unfold Py.ne_int.
  destruct (Ascii.eqb_spec a c), (Ascii.eqb_spec a b), (Ascii.eqb_spec b c);
    try lia; congruence.
Qed.

Lemma calculate_similarity_cases a b :
  calculate_similarity a b = 64 \/
  (String.length a = String.length b /\
   exists va vb, Py.int16 a = Some va /\ Py.int16 b = Some vb /\
     0 <= calculate_similarity a b <= Z.of_nat (String.length a * 4)).
Proof.
  destruct (decide (String.length a = String.length b)) as [Hlen|Hlen];
    [|left; by apply calculate_similarity_length].
  destruct (Py.int16 a) as [va|] eqn:Ha;
    [|left; apply calculate_similarity_unparsable; auto].
  destruct (Py.int16 b) as [vb|] eqn:Hb;
    [|left; apply calculate_similarity_unparsable; auto].
  right. split; [done|]. exists va, vb. split_and!; [done..| |].
  - apply calculate_similarity_nonneg.
  - rewrite (calculate_similarity_parsed _ _ _ _ Hlen Ha Hb).
    etrans; [apply sum_ne_le_length|].
    rewrite length_zfill_body; [done|].
    rewrite <- length_chars. by apply int16_chars_body_length.
Qed.

(** X4: a distance is the sentinel 64 or at most four times the length
    of the codes; so it lies between 0 and the larger of the two, and
    between codes of at most 16 characters, as [imagehash] writes for
    [hash_size = 8], between 0 and 64. *)
Theorem calculate_similarity_bound a b :
  0 <= calculate_similarity a b <= Z.max 64 (Z.of_nat (String.length a * 4)) /\
  (calculate_similarity a b = 64 \/
   calculate_similarity a b <= Z.of_nat (String.length a * 4)) /\
  ((String.length a <= 16)%nat -> calculate_similarity a b <= 64).
Proof.
  pose proof (calculate_similarity_nonneg a b) as H0.
  destruct (calculate_similarity_cases a b) as [H64|(_ & va & vb & _ & _ & Hb)].
  - rewrite H64. split_and!; [lia|lia|by left|lia].
  - split_and!; [lia|lia|right; lia|lia].
Qed.

(** X20: between two non-empty codes of one length made of hexadecimal
    digits only, in either case, the distance is the Hamming distance
    of the two numbers they spell, on four bits for each character. *)
Theorem calculate_similarity_hex_digits a b :
  hex_code a -> hex_code b -> a <> "" ->
  String.length a = String.length b ->
  exists va vb,
    Py.int16 a = Some va /\ Py.int16 b = Some vb /\ 0 <= va /\ 0 <= vb /\
    calculate_similarity a b = hamming (String.length a * 4) va vb.
Proof.
  intros Ha Hb Hne Hlen.
  destruct (hex_code_parses a Ha Hne) as (va & Hva & Pa).
  destruct (hex_code_parses b Hb) as (vb & Hvb & Pb).
  { intros ->. destruct a; done. }
  exists va, vb. split_and!; [done..|].
  by apply calculate_similarity_hamming.
Qed.

(** X5: among codes of at most 32 characters, and among codes of one
    length that all parse, the distance satisfies the triangle
    inequality, the sentinel included. *)
Theorem calculate_similarity_triangle a b c :
  (String.length a <= 32)%nat \/
  (String.length a = String.length b /\ String.length b = String.length c /\
   is_Some (Py.int16 a) /\ is_Some (Py.int16 b) /\ is_Some (Py.int16 c)) ->
  calculate_similarity a c <= calculate_similarity a b + calculate_similarity b c.
Proof.
  intros Hcases.
  pose proof (calculate_similarity_nonneg a b) as Hab0.
  pose proof (calculate_similarity_nonneg b c) as Hbc0.
  destruct (decide (String.length a = String.length b)) as [Lab|Lab].
  2:{ rewrite (calculate_similarity_length a b Lab).
      destruct Hcases as [L32|(? & _)]; [|done].
      destruct (calculate_similarity_cases a c)
        as [->|(Lac & _ & _ & _ & _ & _ & Hac)]; [lia|].
      rewrite (calculate_similarity_length b c) by congruence. lia. }
  destruct (decide (String.length b = String.length c)) as [Lbc|Lbc].
  2:{ rewrite (calculate_similarity_length b c Lbc).
      rewrite (calculate_similarity_length a c) by congruence. lia. }
  destruct (Py.int16 a) as [va|] eqn:Ha.
  2:{ rewrite (calculate_similarity_unparsable a b),
        (calculate_similarity_unparsable a c) by auto. lia. }
  destruct (Py.int16 c) as [vc|] eqn:Hc.
  2:{ rewrite (calculate_similarity_unparsable b c),
        (calculate_similarity_unparsable a c) by auto. lia. }
  destruct (Py.int16 b) as [vb|] eqn:Hb.
  2:{ rewrite (calculate_similarity_unparsable a b),
        (calculate_similarity_unparsable b c) by auto.
      destruct Hcases as [L32|(_ & _ & _ & [? ?] & _)]; [|done].
      destruct (calculate_similarity_cases a c)
        as [->|(_ & _ & _ & _ & _ & _ & Hac)]; lia. }
  rewrite (calculate_similarity_parsed a b va vb),
    (calculate_similarity_parsed b c vb vc),
    (calculate_similarity_parsed a c va vc) by (done || congruence).
  apply sum_ne_triangle; rewrite !length_zfill_body;
    try (rewrite <- length_chars; by apply int16_chars_body_length); lia.
Qed.

(** ** The loop of the scan, by the match of each candidate *)

Section ScanMore.
Context (query_hashes : gmap string string).

Lemma scan_one_candidate_match threshold st x :
  scan_one query_hashes threshold st x =
    match candidate_match query_hashes x with
    | Some m =>
        if (distance m <=? threshold) && lt_best (distance m) (best_distance st)
        then {| best_match := Some m; best_distance := Some (distance m) |}
        else st
    | None => st
    end.
Proof.
  unfold scan_one, candidate_match.
  destruct (min_value _) as [d|]; [|done]. destruct (min_key _) as [k|]; done.
Qed.

Lemma candidate_match_min x m :
  candidate_match query_hashes x = Some m ->
  candidate_min query_hashes x (distance m) /\
  min_key (distances_of query_hashes x) = Some (algorithm_used m) /\
  match_id m = id x /\ match_filename m = filename x /\ match_url m = url x /\
  match_created_at m = created_at x /\
  similarity_percentage m = Z.max 0 (100 - distance m * 10).
Proof.
  unfold candidate_match.
  destruct (min_value _) as [d|] eqn:Hmin; [|done].
  destruct (min_key _) as [k|] eqn:Hkey; [|done].
  intros [= <-]. simpl. split_and!; try done. by apply min_value_candidate_min.
Qed.

Lemma candidate_min_match x d :
  candidate_min query_hashes x d ->
  exists m, candidate_match query_hashes x = Some m /\ distance m = d.
Proof.
  intros Hmin%min_value_candidate_min. unfold candidate_match. rewrite Hmin.
  destruct (min_key_Some _ _ Hmin) as (k & -> & _). eauto.
Qed.

(** The state of the loop after the candidates [l]: the match of the
    first candidate of least distance, if that distance is within the
    threshold. *)
Lemma scan_loop_state threshold l :
  match best_match (scan_loop query_hashes threshold l) with
  | None =>
      forall j other m', l !! j = Some other ->
        candidate_match query_hashes other = Some m' -> threshold < distance m'
  | Some m =>
      distance m <= threshold /\
      exists i stored_image,
        l !! i = Some stored_image /\
        candidate_match query_hashes stored_image = Some m /\
        forall j other m', l !! j = Some other ->
          candidate_match query_hashes other = Some m' ->
          distance m <= distance m' /\ ((j < i)%nat -> distance m < distance m')
  end.
Proof.
  pose proof (scan_loop_invariant query_hashes threshold l) as Hinv.
  assert (forall m, best_match (scan_loop query_hashes threshold l) = Some m ->
            exists i x, l !! i = Some x /\ candidate_match query_hashes x = Some m /\
              forall j other m', (j < i)%nat -> l !! j = Some other ->
                candidate_match query_hashes other = Some m' ->
                distance m < distance m') as Hsrc.
  { clear Hinv. unfold scan_loop. induction l as [|x l IH] using rev_ind; [done|].
    rewrite foldl_snoc, scan_one_candidate_match. intros m.
    pose proof (scan_loop_invariant query_hashes threshold l) as Hinv.
    unfold scan_loop in Hinv.
    assert (forall m0,
              best_match (foldl (scan_one query_hashes threshold)
                {| best_match := None; best_distance := None |} l) = Some m0 ->
              exists i y, (l ++ [x]) !! i = Some y /\
                candidate_match query_hashes y = Some m0 /\
                forall j other m', (j < i)%nat -> (l ++ [x]) !! j = Some other ->
                  candidate_match query_hashes other = Some m' ->
                  distance m0 < distance m') as Hkeep.
    { intros m0 Hm0. destruct (IH m0 Hm0) as (i & y & Hi & Hy & Hearlier).
      exists i, y. split_and!; [by apply lookup_app_l_Some|done|].
      intros j other m' Hj Hother Hm'. apply lookup_lt_Some in Hi.
      rewrite lookup_app_l in Hother by lia. by eapply Hearlier. }
    destruct (candidate_match query_hashes x) as [mx|] eqn:Hx; [|by apply Hkeep].
    destruct (_ && _) eqn:Hcond; [|by apply Hkeep].
    simpl. intros [= <-]. exists (length l), x.
    split_and!; [by apply list_lookup_middle|done|].
    intros j other m' Hj Hother Hm'. rewrite lookup_app_l in Hother by lia.
    apply candidate_match_min in Hm' as (Hm' & _).
    apply andb_true_iff in Hcond as [Hle Hlt].
    destruct (best_match _) as [m0|].
    - destruct Hinv as (Hbd & _ & _ & i & y & (_ & _ & Hbest) & _).
      rewrite Hbd in Hlt. simpl in Hlt.
      destruct (Hbest j other (distance m') Hother Hm'). lia.
    - destruct Hinv as (_ & Hall).
      pose proof (Hall j other (distance m') Hother Hm'). lia. }
  destruct (best_match _) as [m|].
  - destruct Hinv as (_ & Hle & _ & i & y & (Hi & Hmin & Hbest) & _).
    split; [done|].
    destruct (Hsrc m eq_refl) as (i' & x & Hi' & Hx & Hearlier).
    apply candidate_match_min in Hx as Hxmin. destruct Hxmin as (Hxmin & _).
    assert (i' = i) as ->.
    { destruct (Hbest i' x (distance m) Hi' Hxmin) as [_ Hlt].
      destruct (candidate_min_match y (distance m) Hmin) as (my & Hy & Hdy).
      destruct (Nat.lt_trichotomy i' i) as [?|[?|Hgt]]; [lia|done|].
      pose proof (Hearlier i y my Hgt Hi Hy). lia. }
    assert (y = x) as -> by congruence.
    exists i, x. split_and!; [done..|].
    intros j other m' Hj Hm'. apply candidate_match_min in Hm' as (Hm' & _).
    by apply (Hbest j other).
  - destruct Hinv as (_ & Hall). intros j other m' Hj Hm'.
    apply candidate_match_min in Hm' as (Hm' & _). by apply (Hall j other).
Qed.

End ScanMore.

(** ** The best match under other thresholds *)

Lemma best_match_threshold query_hashes t0 t l m :
  best_match (scan_loop query_hashes t0 l) = Some m ->
  best_match (scan_loop query_hashes t l) =
    if distance m <=? t then Some m else None.
Proof.
  intros Hm0.
  pose proof (scan_loop_state query_hashes t0 l) as H0. rewrite Hm0 in H0.
  destruct H0 as (_ & i & x & Hi & Hx & Hbest).
  pose proof (scan_loop_state query_hashes t l) as Ht.
  destruct (best_match (scan_loop query_hashes t l)) as [m'|].
  - destruct Ht as (Hle & i' & x' & Hi' & Hx' & Hbest').
    destruct (Hbest i' x' m' Hi' Hx') as [H1 H2].
    destruct (Hbest' i x m Hi Hx) as [H3 H4].
    assert (i' = i) as -> by lia.
    assert (m' = m) as -> by congruence.
    by destruct (Z.leb_spec (distance m) t); [|lia].
  - pose proof (Ht i x m Hi Hx). by destruct (Z.leb_spec (distance m) t); [lia|].
Qed.

(** ** The algorithm a match names *)

Lemma foldl_min_key_first l : forall kv0 : string * Z,
  exists i,
    (kv0 :: l) !! i =
      Some (foldl (fun best (kv : string * Z) => if kv.2 <? best.2 then kv else best)
              kv0 l) /\
    forall j kv, (kv0 :: l) !! j = Some kv ->
      (foldl (fun best (kv : string * Z) => if kv.2 <? best.2 then kv else best)
         kv0 l).2 <= kv.2 /\
      ((j < i)%nat ->
       (foldl (fun best (kv : string * Z) => if kv.2 <? best.2 then kv else best)
          kv0 l).2 < kv.2).
Proof.
  induction l as [|x l IH] using rev_ind; intros kv0.
  - exists 0%nat. split; [done|]. intros [|j] kv Hj; simplify_eq/=; lia.
  - rewrite foldl_snoc. destruct (IH kv0) as (i & Hi & Hall).
    set (best := foldl _ kv0 l) in *.
    change (kv0 :: l ++ [x]) with ((kv0 :: l) ++ [x]).
    destruct (Z.ltb_spec x.2 best.2) as [Hlt|Hge].
    + exists (length (kv0 :: l)). split; [by apply list_lookup_middle|].
      intros j kv [Hj|[Hge Hj]]%lookup_app_Some.
      * destruct (Hall j kv Hj). lia.
      * apply list_lookup_singleton_Some in Hj as [? <-]. lia.
    + exists i. split; [by apply lookup_app_l_Some|].
      intros j kv [Hj|[Hge' Hj]]%lookup_app_Some; [by apply Hall|].
      apply list_lookup_singleton_Some in Hj as [? <-].
      apply lookup_lt_Some in Hi. lia.
Qed.

Lemma min_key_first l k :
  min_key l = Some k ->
  exists i d,
    l !! i = Some (k, d) /\
    forall j kv, l !! j = Some kv -> d <= kv.2 /\ ((j < i)%nat -> d < kv.2).
Proof.
  destruct l as [|kv0 l]; [done|]. simpl. intros [= <-].
  destruct (foldl_min_key_first l kv0) as (i & Hi & Hall).
  exists i, (foldl (fun best (kv : string * Z) => if kv.2 <? best.2 then kv else best)
               kv0 l).2.
  split; [|done]. rewrite Hi. by destruct (foldl _ kv0 l).
Qed.

(** The entries of [omap] keep the order of their sources. *)
Lemma omap_key_order (f : string -> option (string * Z)) (l : list string) :
  (forall x kv, f x = Some kv -> kv.1 = x) ->
  NoDup l ->
  forall i j a b da db p r,
    omap f l !! i = Some (a, da) -> omap f l !! j = Some (b, db) ->
    l !! p = Some a -> l !! r = Some b -> (p < r)%nat -> (i < j)%nat.
Proof.
  intros Hkey. induction l as [|x l IH]; intros Hnd i j a b da db p r Hi Hj Hp Hr Hpr.
  { by rewrite lookup_nil in Hp. }
  apply NoDup_cons in Hnd as [Hx Hnd].
  assert (forall k d n, omap f l !! n = Some (k, d) -> k ∈ l) as Hin.
  { intros k d n Hn. apply list_elem_of_lookup_2 in Hn.
    apply list_elem_of_omap in Hn as (y & Hy & Hfy).
    apply Hkey in Hfy. simpl in Hfy. by subst. }
  destruct r as [|r]; [lia|]. simpl in Hr.
  assert (b ∈ l) as Hb by (by eapply list_elem_of_lookup_2).
  simpl in Hi, Hj. destruct (f x) as [[k d]|] eqn:Hfx.
  - apply Hkey in Hfx as Hk. simpl in Hk. subst k.
    destruct j as [|j].
    { simpl in Hj. simplify_eq. done. }
    destruct i as [|i]; [lia|]. simpl in Hi, Hj.
    destruct p as [|p].
    { simpl in Hp. simplify_eq. destruct Hx. by eapply Hin. }
    simpl in Hp. apply le_n_S. apply (IH Hnd i j a b da db p r); try done. lia.
  - destruct p as [|p].
    { simpl in Hp. simplify_eq. destruct Hx. by eapply Hin. }
    simpl in Hp. apply (IH Hnd i j a b da db p r); try done. lia.
Qed.

Lemma distances_of_order query_hashes stored_image i j a b da db :
  distances_of query_hashes stored_image !! i = Some (a, da) ->
  distances_of query_hashes stored_image !! j = Some (b, db) ->
  precedes a b -> (i < j)%nat.
Proof.
  intros Hi Hj (p & r & Hp & Hr & Hpr). unfold distances_of in *.
  refine (omap_key_order _ _ _ _ i j a b da db p r Hi Hj Hp Hr Hpr).
  - intros x kv Hf. repeat case_match; simplify_eq. done.
  - apply (bool_decide_unpack _). by vm_compute.
Qed.

(** The algorithm of a candidate's match attains its least distance, and
    no algorithm tried before it does. *)
Lemma candidate_match_algorithm query_hashes stored_image m :
  candidate_match query_hashes stored_image = Some m ->
  distance_under query_hashes stored_image (algorithm_used m) (distance m) /\
  forall algorithm d,
    distance_under query_hashes stored_image algorithm d ->
    distance m <= d /\ (precedes algorithm (algorithm_used m) -> distance m < d).
Proof.
  intros Hm. apply candidate_match_min in Hm as (((a0 & Ha0) & Hmin) & Hkey & _).
  apply min_key_first in Hkey as (i & d0 & Hi & Hall).
  assert (d0 = distance m) as ->.
  { apply Z.le_antisymm.
    - apply elem_of_distances_of, list_elem_of_lookup_1 in Ha0 as [j Hj].
      by destruct (Hall j _ Hj).
    - apply list_elem_of_lookup_2, elem_of_distances_of in Hi. by eapply Hmin. }
  split.
  { by eapply elem_of_distances_of, list_elem_of_lookup_2. }
  intros algorithm d Hd.
  apply elem_of_distances_of, list_elem_of_lookup_1 in Hd as [j Hj].
  destruct (Hall j _ Hj) as [Hle Hlt]. split; [done|].
  intros Hprec. apply Hlt. by eapply distances_of_order.
Qed.

(** ** The scan service *)

Section ScanService.
Context `{Externals}.

(** X6: when the validator raises, the scan raises that same
    [HTTPException], under every threshold, and the store is the one
    before the call. *)
Theorem scan_image_for_url_validation_error file threshold db e :
  validate_and_process_image file = inl e ->
  exists h,
    e = EHTTP h /\
    (status_code h = 413 \/ status_code h = 400) /\
    scan_image_for_url file threshold db = (inl h, db).
Proof.
  intros Hv. unfold scan_image_for_url, scan_body. rewrite Hv. simpl.
  apply validate_error in Hv as (h & -> & Hcases).
  exists h. split_and!; [done| |done].
  destruct Hcases as [->|[->|[msg ->]]]; simpl; auto.
Qed.

(** X7: the threshold only decides whether the best match is reported,
    never which one it is: when the scan of an image finds a match under
    some threshold, its scan under any threshold answers that same match
    if the distance of the match is within the threshold, and [no_match]
    if not. *)
Theorem scan_threshold_only_gates file t0 db message m redirect total db' :
  scan_image_for_url file t0 db
    = (inr (match_found message m redirect total), db') ->
  forall threshold,
    scan_image_for_url file threshold db =
      (if distance m <=? threshold
       then inr (match_found message m redirect total)
       else inr (no_match total threshold), db').
Proof.
  intros Hscan threshold.
  pose proof Hscan as (result & Hv & Hm)%scan_match_found.
  rewrite (scan_valid _ _ _ _ Hv) in Hscan. rewrite (scan_valid _ _ _ _ Hv).
  rewrite (best_match_threshold _ _ threshold _ _ Hm).
  rewrite Hm in Hscan. injection Hscan as <- <- <- <-.
  by destruct (distance m <=? threshold).
Qed.

(** X8: the algorithm a match names attains the distance of the match
    on the matched document, and no algorithm that the scan tries before
    it, in the order dhash, phash, ahash, whash, does. *)
Theorem scan_algorithm_used file threshold db message m redirect total db' :
  scan_image_for_url file threshold db
    = (inr (match_found message m redirect total), db') ->
  exists result i stored_image,
    validate_and_process_image file = inr result /\
    find_all db !! i = Some stored_image /\
    match_id m = id stored_image /\
    distance_under (res_hashes result) stored_image (algorithm_used m) (distance m) /\
    forall algorithm d,
      distance_under (res_hashes result) stored_image algorithm d ->
      distance m <= d /\ (precedes algorithm (algorithm_used m) -> distance m < d).
Proof.
  intros (result & Hv & Hm)%scan_match_found.
  pose proof (scan_loop_state (res_hashes result) threshold (find_all db)) as Hst.
  rewrite Hm in Hst. destruct Hst as (_ & i & x & Hi & Hx & _).
  exists result, i, x. split_and!; [done..| | |].
  - by apply candidate_match_min in Hx as (_ & _ & ? & _).
  - by apply candidate_match_algorithm in Hx as [? _].
  - by apply candidate_match_algorithm in Hx as [_ ?].
Qed.

End ScanService.

(** ** Deleting and listing *)

Lemma delete_one_not_found image_id db :
  image_id ∉ id <$> image_links db ->
  list_find (fun d => id d = image_id) (image_links db) = None.
Proof.
  intros Hno. apply list_find_None, Forall_forall. intros d Hd Hid.
  apply Hno, list_elem_of_fmap. eauto.
Qed.

Lemma delete_one_found image_id db :
  image_id ∈ id <$> image_links db ->
  exists k d, list_find (fun d => id d = image_id) (image_links db) = Some (k, d).
Proof.
  intros (d & -> & Hd)%list_elem_of_fmap.
  destruct (list_find_elem_of (fun d' => id d' = id d) (image_links db) d)
    as [[k d'] Hfind]; eauto.
Qed.

(** X9: a delete answers 404 [Image not found] exactly when no document
    has the id, and then leaves the collection as it is. *)
Theorem delete_stored_image_unknown image_id db :
  ((delete_stored_image image_id db).1
     = inl {| status_code := 404; detail := "Image not found" |} <->
   image_id ∉ id <$> image_links db) /\
  ((delete_stored_image image_id db).1
     = inl {| status_code := 404; detail := "Image not found" |} ->
   image_links (delete_stored_image image_id db).2 = image_links db).
Proof.
  unfold delete_stored_image, delete_one.
  destruct (decide (image_id ∈ id <$> image_links db)) as [Hin|Hno].
  - destruct (delete_one_found _ _ Hin) as (k & d & ->). simpl.
    split; [|done]. split; [done|]. intros Hno. by destruct Hno.
  - rewrite (delete_one_not_found _ _ Hno). simpl. done.
Qed.

(** X10: the delete of an id that some document has answers with
    success and removes one document, the first with that id; the
    documents before it keep their positions, those after it move up by
    one, and so every document with another id stays. *)
Theorem delete_stored_image_removes_first image_id db :
  image_id ∈ id <$> image_links db ->
  exists k d,
    image_links db !! k = Some d /\ id d = image_id /\
    (forall j d', (j < k)%nat -> image_links db !! j = Some d' -> id d' <> image_id) /\
    (delete_stored_image image_id db).1 = inr "Image link deleted successfully" /\
    image_links (delete_stored_image image_id db).2 = delete k (image_links db) /\
    S (length (image_links (delete_stored_image image_id db).2))
      = length (image_links db) /\
    (forall j, (j < k)%nat ->
       image_links (delete_stored_image image_id db).2 !! j = image_links db !! j) /\
    (forall j, (k <= j)%nat ->
       image_links (delete_stored_image image_id db).2 !! j
         = image_links db !! S j).
Proof.
  intros Hin. destruct (delete_one_found _ _ Hin) as (k & d & Hfind).
  exists k, d. unfold delete_stored_image, delete_one. rewrite Hfind. simpl.
  apply list_find_Some in Hfind as (Hk & Hid & Hfirst).
  split_and!; try done.
  - intros j d' Hj Hd'. by eapply Hfirst.
  - rewrite length_delete by eauto. apply lookup_lt_Some in Hk. lia.
  - intros j Hj. by apply list_lookup_delete_lt.
  - intros j Hj. by apply list_lookup_delete_ge.
Qed.

(** X11: the listing never fails and leaves the store as it is; it has
    an entry for each of the first 1000 documents, in the order of the
    collection, with the id, the url and [WxH] of the document, and its
    total is the number of entries, never more than 1000. *)
Theorem get_stored_images_entries db :
  exists images,
    get_stored_images db = (inr (length images, images), db) /\
    length images = Nat.min 1000 (length (image_links db)) /\
    (forall i d, (i < 1000)%nat -> image_links db !! i = Some d ->
       exists entry,
         images !! i = Some entry /\
         si_id entry = id d /\ si_url entry = url d /\
         si_filename entry = filename d /\
         si_image_size entry
           = pretty (image_width d) +:+ "x" +:+ pretty (image_height d)) /\
    (forall i, (1000 <= i)%nat -> images !! i = None).
Proof.
  exists (format_image <$> find_all db). unfold get_stored_images, find_all.
  split_and!.
  - done.
  - by rewrite length_fmap, length_take.
  - intros i d Hi Hd. exists (format_image d). split; [|done].
    by rewrite list_lookup_fmap, lookup_take_lt, Hd.
  - intros i Hi. by rewrite list_lookup_fmap, lookup_take_ge.
Qed.

(** ** What a link does to the collection *)

Section LinkMore.
Context `{Externals}.

(** The three ways a link can end. *)
Lemma link_cases env link_url file db :
  (exists e, validate_and_process_image file = inl e /\
     link_image_to_url env link_url file db = (http_errors (inl e), db)) \/
  (exists result i existing,
     validate_and_process_image file = inr result /\
     list_find (fun d => file_hash d = res_file_hash result) (image_links db)
       = Some (i, existing) /\
     link_image_to_url env link_url file db =
       (inr (updated ("Updated URL for existing image: " +:+ fmt_filename file)
               (id existing) link_url),
        {| image_links :=
             <[i := set_url link_url (utcnow env) existing]> (image_links db);
           commands := commands db
             ++ [UpdateOne (res_file_hash result) link_url (utcnow env)] |})) \/
  (exists result image_link,
     validate_and_process_image file = inr result /\
     find_one (res_file_hash result) db = None /\
     new_image_link env link_url file result = inr image_link /\
     link_image_to_url env link_url file db =
       (inr (created ("Successfully linked " +:+ fmt_filename file
                        +:+ " to " +:+ link_url)
               (uuid4 env) link_url (res_hashes result)),
        insert_one image_link db)).
Proof.
  destruct (validate_and_process_image file) as [e|result] eqn:Hv.
  { left. exists e. split; [done|]. by apply link_error. }
  right. destruct (find_one (res_file_hash result) db) as [existing|] eqn:Hfind.
  - left. apply find_one_Some in Hfind as [i Hi]. exists result, i, existing.
    split_and!; [done..|]. by apply link_updated.
  - right. destruct (link_created env link_url file db result Hv Hfind)
      as (image_link & Hnew & Hlink). by exists result, image_link.
Qed.

(** X12: a link removes no document and moves none: every document of
    the collection is afterwards at its position with the same id,
    checksum, codes, file name, metadata and creation time, and with its
    url either kept or set to the url of the link. *)
Theorem link_image_to_url_keeps_documents env link_url file db i d :
  image_links db !! i = Some d ->
  exists d',
    image_links (link_image_to_url env link_url file db).2 !! i = Some d' /\
    id d' = id d /\ file_hash d' = file_hash d /\ filename d' = filename d /\
    ahash d' = ahash d /\ phash d' = phash d /\
    dhash d' = dhash d /\ whash d' = whash d /\
    content_type d' = content_type d /\ file_size d' = file_size d /\
    image_width d' = image_width d /\ image_height d' = image_height d /\
    created_at d' = created_at d /\
    (url d' = url d \/ url d' = link_url).
Proof.
  intros Hi.
  destruct (link_cases env link_url file db)
    as [(e & _ & ->)|[(result & k & existing & _ & Hfind & ->)
                     |(result & image_link & _ & _ & _ & ->)]]; simpl.
  - exists d. split_and!; auto.
  - apply list_find_Some in Hfind as (Hk & _).
    destruct (decide (k = i)) as [->|Hne].
    + assert (existing = d) as -> by congruence.
      exists (set_url link_url (utcnow env) d).
      split_and!; auto. apply list_lookup_insert_eq. by eapply lookup_lt_Some.
    + exists d. rewrite list_lookup_insert_ne by done. split_and!; auto.
  - exists d. split_and!; auto. by apply lookup_app_l_Some.
Qed.

(** X13: a link that answers [created] under an id no document has yet
    is undone by the delete of that id: the delete succeeds, the
    collection is the one before the link, and a second delete of the id
    answers 404. *)
Theorem link_then_delete env link_url file db result :
  validate_and_process_image file = inr result ->
  find_one (res_file_hash result) db = None ->
  uuid4 env ∉ id <$> image_links db ->
  (delete_stored_image (uuid4 env)
     (link_image_to_url env link_url file db).2).1
    = inr "Image link deleted successfully" /\
  image_links (delete_stored_image (uuid4 env)
                 (link_image_to_url env link_url file db).2).2
    = image_links db /\
  (delete_stored_image (uuid4 env)
     (delete_stored_image (uuid4 env)
        (link_image_to_url env link_url file db).2).2).1
    = inl {| status_code := 404; detail := "Image not found" |}.
Proof.
  intros Hv Hfind Hfresh.
  destruct (link_created env link_url file db result Hv Hfind)
    as (image_link & Hnew & ->).
  destruct (new_image_link_ok env link_url file result Hv)
    as (image_link' & Hnew' & Hid & _).
  assert (image_link' = image_link) as -> by congruence.
  assert (list_find (fun d => id d = uuid4 env) (image_links db ++ [image_link])
          = Some (length (image_links db), image_link)) as Hpos.
  { rewrite list_find_app_r by (by apply delete_one_not_found).
    simpl. rewrite decide_True by done. simpl. do 2 f_equal. }
  cbn [snd].
  assert (delete_stored_image (uuid4 env) (insert_one image_link db) =
            (inr "Image link deleted successfully",
             {| image_links := image_links db;
                commands := (commands db ++ [InsertOne image_link])
                            ++ [DeleteOne (uuid4 env)] |})) as ->.
  { unfold delete_stored_image, delete_one. simpl. rewrite Hpos. simpl.
    by rewrite delete_middle, app_nil_r. }
  simpl. split_and!; [done|done|].
  unfold delete_stored_image, delete_one. simpl.
  by rewrite (delete_one_not_found _ _ Hfresh).
Qed.

(** X14: after a link that answers, the listing of a store of at most
    1000 documents has an entry with the id the link returned and the
    url of the link. *)
Theorem link_then_list env link_url file db response db' :
  link_image_to_url env link_url file db = (inr response, db') ->
  (length (image_links db') <= 1000)%nat ->
  exists images entry,
    (get_stored_images db').1 = inr (length images, images) /\
    entry ∈ images /\
    si_url entry = link_url /\
    si_id entry =
      match response with
      | created _ image_id _ _ => image_id
      | updated _ image_id _ => image_id
      end.
Proof.
  intros Hlink Hsmall.
  assert (exists d, d ∈ image_links db' /\ url d = link_url /\
            id d = match response with
                   | created _ image_id _ _ => image_id
                   | updated _ image_id _ => image_id
                   end) as (d & Hd & Hurl & Hid).
  { destruct (link_cases env link_url file db)
      as [(e & _ & Heq)|[(result & k & existing & _ & Hfind & Heq)
                        |(result & image_link & Hv & _ & Hnew & Heq)]];
      rewrite Heq in Hlink.
    - by destruct e.
    - injection Hlink as <- <-. apply list_find_Some in Hfind as (Hk & _).
      exists (set_url link_url (utcnow env) existing). split_and!; [|done..].
      eapply list_elem_of_lookup_2. apply list_lookup_insert_eq.
      by eapply lookup_lt_Some.
    - injection Hlink as <- <-.
      destruct (new_image_link_ok env link_url file result Hv)
        as (image_link' & Hnew' & Hid & Hurl & _).
      assert (image_link' = image_link) as -> by congruence.
      exists image_link. split_and!; [|done..].
      simpl. apply elem_of_app. right. by apply list_elem_of_singleton. }
  exists (format_image <$> find_all db'), (format_image d).
  split_and!; [done| |done..].
  apply list_elem_of_fmap_2. unfold find_all. by rewrite take_ge.
Qed.

End LinkMore.

(** ** Links and scans together *)

Section LinkScan.
Context `{Externals}.

Lemma doc_hash_set_url algorithm u t d :
  doc_hash algorithm (set_url u t d) = doc_hash algorithm d.
Proof. done. Qed.

Lemma link_preserves_codes env link_url file db :
  Forall has_all_codes (image_links db) ->
  Forall has_all_codes (image_links (link_image_to_url env link_url file db).2).
Proof.
  intros Hall.
  destruct (link_cases env link_url file db)
    as [(e & _ & ->)|[(result & k & existing & _ & Hfind & ->)
                     |(result & image_link & Hv & _ & Hnew & ->)]]; simpl.
  - done.
  - apply list_find_Some in Hfind as (Hk & _).
    apply Forall_insert; [done|]. intros algorithm Halg.
    rewrite doc_hash_set_url. by eapply (Forall_lookup_1 _ _ _ _ Hall Hk).
  - apply Forall_app. split; [done|]. apply Forall_singleton.
    destruct (new_image_link_ok env link_url file result Hv)
      as (image_link' & Hnew' & _ & _ & _ & _ & _ & _ & Hcodes).
    assert (image_link' = image_link) as -> by congruence.
    intros algorithm Halg. destruct (Hcodes algorithm Halg) as [-> ?]. done.
Qed.

Lemma reachable_codes db : reachable db -> Forall has_all_codes (image_links db).
Proof.
  induction 1 as [|db r _ IH]; [by apply Forall_nil|].
  destruct r as [env link_url file|file threshold| |image_id]; simpl.
  - by apply link_preserves_codes.
  - done.
  - done.
  - unfold delete_stored_image, delete_one.
    destruct (list_find _ _) as [[k d]|]; simpl; [|done]. by apply Forall_delete.
Qed.

(** X15: every document of a store that requests have built from the
    empty store carries all four codes, so that the scan finds each of
    its algorithms in every candidate. *)
Theorem reachable_documents_have_codes db d :
  reachable db -> d ∈ image_links db ->
  is_Some (dhash d) /\ is_Some (phash d) /\ is_Some (ahash d) /\ is_Some (whash d).
Proof.
  intros Hr Hd. pose proof (reachable_codes db Hr) as Hall.
  rewrite Forall_forall in Hall. specialize (Hall d Hd).
  split_and!; [apply (Hall "dhash")|apply (Hall "phash")
              |apply (Hall "ahash")|apply (Hall "whash")];
    unfold algorithms; rewrite !elem_of_cons; auto.
Qed.

Lemma candidate_match_all_codes result file d :
  validate_and_process_image file = inr result ->
  has_all_codes d ->
  is_Some (candidate_match (res_hashes result) d).
Proof.
  intros Hv Hd.
  assert ("dhash" ∈ algorithms) as Hin by (unfold algorithms; rewrite !elem_of_cons; auto).
  destruct (Hd "dhash" Hin) as [s Hs].
  destruct (proj2 (validate_hashes_dom file result Hv "dhash") Hin) as [q Hq].
  assert (distance_under (res_hashes result) d "dhash" (calculate_similarity q s))
    as Hu by (split; eauto).
  apply elem_of_distances_of in Hu. unfold candidate_match.
  destruct (min_value _) as [dm|] eqn:Hmin.
  - destruct (min_key_Some _ _ Hmin) as (k & -> & _). eauto.
  - apply min_value_None in Hmin. rewrite Hmin in Hu. by apply elem_of_nil in Hu.
Qed.

(** X16: on a store built by requests that holds a document, the scan of
    a valid image has a best match, at some distance of at least 0: the
    scan answers it under every threshold at or above that distance and
    [no_match] under every threshold below it. *)
Theorem scan_reachable_store file db result :
  reachable db -> image_links db <> [] ->
  validate_and_process_image file = inr result ->
  exists m,
    0 <= distance m /\
    forall threshold,
      scan_image_for_url file threshold db =
        (if distance m <=? threshold
         then inr (match_found ("Found matching image: " +:+ match_filename m) m
                     (match_url m) (length (find_all db)))
         else inr (no_match (length (find_all db)) threshold), db).
Proof.
  intros Hr Hne Hv.
  pose proof (reachable_codes db Hr) as Hall.
  destruct (image_links db) as [|d0 l] eqn:Hdocs; [done|].
  assert (find_all db !! 0%nat = Some d0) as H0
    by (unfold find_all; by rewrite Hdocs).
  apply Forall_cons in Hall as [Hd0 _].
  destruct (candidate_match_all_codes result file d0 Hv Hd0) as [m0 Hm0].
  pose proof (scan_loop_state (res_hashes result) (distance m0) (find_all db)) as Hst.
  destruct (best_match (scan_loop (res_hashes result) (distance m0) (find_all db)))
    as [m|] eqn:Hm.
  2:{ pose proof (Hst 0%nat d0 m0 H0 Hm0). lia. }
  exists m. split.
  - destruct Hst as (_ & i & x & _ & Hx & _).
    apply candidate_match_min in Hx as (Hx & _). by eapply candidate_min_nonneg.
  - intros threshold. rewrite (scan_valid _ _ _ _ Hv).
    rewrite (best_match_threshold _ _ threshold _ _ Hm).
    by destruct (distance m <=? threshold).
Qed.

(** X17: a link that answers [created] into a store of fewer than 1000
    documents is found by the scan of an upload of the same bytes under every
    threshold of at least 0, at distance 0 and similarity 100, provided
    one of the four codes of the image parses; when no older document is
    at distance 0 from the image, the match is the new document and
    redirects to the url of the link. *)
Theorem link_then_scan env link_url file db result file' threshold algorithm code :
  validate_and_process_image file = inr result ->
  find_one (res_file_hash result) db = None ->
  (length (image_links db) < 1000)%nat ->
  res_hashes result !! algorithm = Some code ->
  is_Some (Py.int16 code) ->
  upload_content file' = upload_content file ->
  0 <= threshold ->
  exists m,
    scan_image_for_url file' threshold (link_image_to_url env link_url file db).2 =
      (inr (match_found ("Found matching image: " +:+ match_filename m) m
              (match_url m) (S (length (image_links db)))),
       (link_image_to_url env link_url file db).2) /\
    distance m = 0 /\ similarity_percentage m = 100 /\
    ((forall j other d, image_links db !! j = Some other ->
        candidate_min (res_hashes result) other d -> 0 < d) ->
     match_id m = uuid4 env /\ match_url m = link_url).
Proof.
  intros Hv Hfind Hsmall Hcode Hparse Hsame Hthr.
  assert (validate_and_process_image file' = inr result) as Hv'
    by (by rewrite (validate_same_content file' file)).
  destruct (link_created env link_url file db result Hv Hfind)
    as (image_link & Hnew & ->).
  destruct (new_image_link_ok env link_url file result Hv)
    as (image_link' & Hnew' & Hid & Hurl & _ & _ & _ & _ & Hcodes).
  assert (image_link' = image_link) as -> by congruence.
  cbn [snd].
  assert (find_all (insert_one image_link db) = image_links db ++ [image_link]) as Hall.
  { unfold find_all, insert_one. simpl. apply take_ge.
    rewrite length_app. simpl. lia. }
  assert (algorithm ∈ algorithms) as Halg.
  { apply (validate_hashes_dom file result Hv). by rewrite Hcode. }
  assert (candidate_min (res_hashes result) image_link 0) as Hmin.
  { split.
    - exists algorithm. split; [done|]. exists code, code. split_and!; [done| |].
      + destruct (Hcodes algorithm Halg) as [-> _]. done.
      + symmetry. by apply calculate_similarity_self.
    - intros alg' d' Hd'. by eapply distance_under_nonneg. }
  destruct (candidate_min_match _ _ _ Hmin) as (mil & Hmil & Hdil).
  rewrite (scan_valid _ _ _ _ Hv'), Hall.
  pose proof (scan_loop_state (res_hashes result) threshold
                (image_links db ++ [image_link])) as Hst.
  destruct (best_match _) as [m|].
  2:{ pose proof (Hst (length (image_links db)) image_link mil
                    (list_lookup_middle _ _ _ _ eq_refl) Hmil). lia. }
  destruct Hst as (_ & i & x & Hi & Hx & Hbest).
  destruct (Hbest (length (image_links db)) image_link mil
              (list_lookup_middle _ _ _ _ eq_refl) Hmil) as [Hle _].
  pose proof Hx as (Hxmin & _ & Hmid & _ & Hmurl & _ & Hsim)%candidate_match_min.
  pose proof (candidate_min_nonneg _ _ _ Hxmin) as Hnn.
  assert (distance m = 0) as Hd0 by lia.
  exists m. rewrite length_app. simpl.
  replace (length (image_links db) + 1)%nat with (S (length (image_links db))) by lia.
  split_and!; [done|done|rewrite Hsim, Hd0; done|].
  intros Hothers. apply lookup_app_Some in Hi as [Hi|[_ Hi]].
  - rewrite Hd0 in Hxmin. pose proof (Hothers i x 0 Hi Hxmin). lia.
  - apply list_lookup_singleton_Some in Hi as [_ <-]. by rewrite Hmid, Hmurl.
Qed.

End LinkScan.

(** ** A new url for a stored image *)

Section Relink.
Context (query_hashes : gmap string string).

Lemma candidate_match_set_url u t d :
  candidate_match query_hashes (set_url u t d) =
    (fun m => {| match_id := match_id m;
                 match_filename := match_filename m;
                 match_url := u;
                 distance := distance m;
                 similarity_percentage := similarity_percentage m;
                 algorithm_used := algorithm_used m;
                 match_created_at := match_created_at m |})
      <$> candidate_match query_hashes d.
Proof.
  unfold candidate_match.
  change (distances_of query_hashes (set_url u t d))
    with (distances_of query_hashes d).
  destruct (min_value _); [|done]. by destruct (min_key _).
Qed.

Lemma scan_loop_set_url threshold u t l l' :
  (forall j, l' !! j = l !! j \/
     exists x, l !! j = Some x /\ l' !! j = Some (set_url u t x)) ->
  match best_match (scan_loop query_hashes threshold l),
        best_match (scan_loop query_hashes threshold l') with
  | Some m, Some m' => same_but_url u m m'
  | None, None => True
  | _, _ => False
  end.
Proof.
  intros Hrel.
  assert (forall j x m, l !! j = Some x ->
            candidate_match query_hashes x = Some m ->
            exists x' m', l' !! j = Some x' /\
              candidate_match query_hashes x' = Some m' /\ same_but_url u m m')
    as Hfwd.
  { intros j x m Hj Hm. destruct (Hrel j) as [Heq|(y & Hy & Hy')].
    - exists x, m. rewrite Heq. split_and!; try done. unfold same_but_url. auto 10.
    - assert (y = x) as -> by congruence.
      eexists _, _. split; [done|]. rewrite candidate_match_set_url, Hm. simpl.
      split; [done|]. unfold same_but_url. simpl. auto 10. }
  assert (forall j x' m', l' !! j = Some x' ->
            candidate_match query_hashes x' = Some m' ->
            exists x m, l !! j = Some x /\
              candidate_match query_hashes x = Some m /\ same_but_url u m m')
    as Hbwd.
  { intros j x' m' Hj Hm'. destruct (Hrel j) as [Heq|(y & Hy & Hy')].
    - exists x', m'. rewrite <- Heq. split_and!; try done.
      unfold same_but_url. auto 10.
    - assert (x' = set_url u t y) as -> by congruence.
      rewrite candidate_match_set_url in Hm'.
      destruct (candidate_match query_hashes y) as [m|] eqn:Hm; [|done].
      injection Hm' as <-. exists y, m. split_and!; try done.
      unfold same_but_url. simpl. auto 10. }
  pose proof (scan_loop_state query_hashes threshold l) as Hst.
  pose proof (scan_loop_state query_hashes threshold l') as Hst'.
  destruct (best_match (scan_loop query_hashes threshold l)) as [m|],
           (best_match (scan_loop query_hashes threshold l')) as [m'|].
  - destruct Hst as (_ & i & x & Hi & Hx & Hbest).
    destruct Hst' as (_ & i' & x' & Hi' & Hx' & Hbest').
    destruct (Hfwd i x m Hi Hx) as (y' & my' & Hy' & Hmy' & Hsame).
    destruct (Hbwd i' x' m' Hi' Hx') as (y & my & Hy & Hmy & Hsame').
    destruct (Hbest' i y' my' Hy' Hmy') as [H1 H2].
    destruct (Hbest i' y my Hy Hmy) as [H3 H4].
    destruct Hsame as (_ & _ & Hd & _). destruct Hsame' as (_ & _ & Hd' & _).
    assert (i' = i) as -> by lia.
    assert (y' = x') as -> by congruence.
    assert (my' = m') as -> by congruence.
    destruct (Hfwd i x m Hi Hx) as (? & ? & ? & ? & Hsame). congruence.
  - destruct Hst as (Hle & i & x & Hi & Hx & _).
    destruct (Hfwd i x m Hi Hx) as (y' & my' & Hy' & Hmy' & (_ & _ & Hd & _)).
    pose proof (Hst' i y' my' Hy' Hmy'). lia.
  - destruct Hst' as (Hle & i' & x' & Hi' & Hx' & _).
    destruct (Hbwd i' x' m' Hi' Hx') as (y & my & Hy & Hmy & (_ & _ & Hd & _)).
    pose proof (Hst i' y my Hy Hmy). lia.
  - done.
Qed.

End Relink.

Section RelinkScan.
Context `{Externals}.

(** X19: a link that finds its checksum in the store, and so only sets a
    url, changes no scan but in its redirect: a scan that found a match
    finds afterwards a match with the same id, distance, similarity,
    algorithm and file name, whose url is the old one or the url of the
    link, and a scan that found none finds none. *)
Theorem relink_keeps_matches env link_url file db result existing
    query threshold :
  validate_and_process_image file = inr result ->
  find_one (res_file_hash result) db = Some existing ->
  match (scan_image_for_url query threshold db).1,
        (scan_image_for_url query threshold
           (link_image_to_url env link_url file db).2).1 with
  | inr (match_found message m redirect total),
    inr (match_found message' m' redirect' total') =>
      same_but_url link_url m m' /\ message' = message /\ total' = total /\
      redirect' = match_url m'
  | inr (no_match total _), inr (no_match total' _) => total' = total
  | inl h, inl h' => h' = h
  | _, _ => False
  end.
Proof.
  intros Hv [k Hk]%find_one_Some.
  rewrite (link_updated _ _ _ _ _ _ _ Hv Hk). cbn [snd].
  unfold scan_image_for_url. cbn [fst]. unfold scan_body.
  destruct (validate_and_process_image query) as [e|qresult]; simpl.
  { by destruct e. }
  apply list_find_Some in Hk as (Hk & _).
  assert (forall j,
            find_all {| image_links :=
                          <[k := set_url link_url (utcnow env) existing]>
                            (image_links db);
                        commands := commands db ++
                          [UpdateOne (res_file_hash result) link_url (utcnow env)] |}
              !! j = find_all db !! j \/
            exists x, find_all db !! j = Some x /\
              find_all {| image_links :=
                            <[k := set_url link_url (utcnow env) existing]>
                              (image_links db);
                          commands := commands db ++
                            [UpdateOne (res_file_hash result) link_url (utcnow env)] |}
                !! j = Some (set_url link_url (utcnow env) x)) as Hrel.
  { intros j. unfold find_all. simpl.
    destruct (decide (j < 1000)%nat) as [Hj|Hj].
    - rewrite !lookup_take_lt by done.
      destruct (decide (k = j)) as [->|Hne].
      + right. exists existing. split; [done|].
        apply list_lookup_insert_eq. by eapply lookup_lt_Some.
      + left. by apply list_lookup_insert_ne.
    - left. by rewrite !lookup_take_ge by lia. }
  assert (length (find_all {| image_links :=
                          <[k := set_url link_url (utcnow env) existing]>
                            (image_links db);
                        commands := commands db ++
                          [UpdateOne (res_file_hash result) link_url (utcnow env)] |})
          = length (find_all db)) as Hlen.
  { unfold find_all. simpl. by rewrite !length_take, length_insert. }
  pose proof (scan_loop_set_url (res_hashes qresult) threshold link_url
                (utcnow env) _ _ Hrel) as Hloop.
  rewrite Hlen.
  destruct (best_match (scan_loop _ threshold (find_all db))) as [m|],
           (best_match (scan_loop _ threshold (find_all _))) as [m'|];
    simpl; try done.
  split_and!; [done| |done|done].
  destruct Hloop as (_ & -> & _). done.
Qed.

End RelinkScan.

(** ** [get_backend_url] *)

Lemma prefix_key v : String.prefix Env.key (Env.key +:+ v) = true.
Proof. by destruct v. Qed.

Lemma split1_second_key v :
  Env.split1_second "="%char (Env.key +:+ v) = Some v.
Proof. reflexivity. Qed.

Lemma lstrip_no_lead s c r : Env.lstrip s = String c r -> Env.isspace c = false.
Proof.
  induction s as [|c' s IH]; simpl; [done|].
  destruct (Env.isspace c') eqn:Hc; [done|]. by intros [= <- <-].
Qed.

Lemma rstrip_first s c r : Env.rstrip s = String c r -> exists r', s = String c r'.
Proof.
  destruct s as [|c' s]; simpl; [done|].
  destruct (Env.rstrip s); [destruct (Env.isspace c'); [done|]|];
    intros [= <- <-]; eauto.
Qed.

Lemma rstrip_last s c : Env.last_char (Env.rstrip s) = Some c -> Env.isspace c = false.
Proof.
  induction s as [|c' s IH]; simpl; [done|].
  destruct (Env.rstrip s) as [|c'' r] eqn:Hr.
  - destruct (Env.isspace c') eqn:Hc; simpl; [done|]. by intros [= <-].
  - simpl in *. done.
Qed.

(** X18: [get_backend_url] answers the default when the file cannot be
    read or has no line that starts with [REACT_APP_BACKEND_URL=]; else
    it answers what follows the key on the first such line, equals signs
    included, without the white space around it, so that the answer
    neither starts nor ends with white space (and is empty for a line
    with nothing but white space after the key). *)
Theorem get_backend_url_first_line :
  Env.get_backend_url None = Env.default_url /\
  (forall lines,
     Forall (fun line => String.prefix Env.key line = false) lines ->
     Env.get_backend_url (Some lines) = Env.default_url) /\
  (forall before v after,
     Forall (fun line => String.prefix Env.key line = false) before ->
     Env.get_backend_url (Some (before ++ (Env.key +:+ v) :: after)) = Env.strip v /\
     (forall c r, Env.strip v = String c r -> Env.isspace c = false) /\
     (forall c, Env.last_char (Env.strip v) = Some c -> Env.isspace c = false)).
Proof.
  split_and!.
  - done.
  - intros lines Hall. unfold Env.get_backend_url.
    assert (Env.read_lines lines = Some None) as ->; [|done].
    induction Hall as [|line lines Hline _ IH]; simpl; [done|]. by rewrite Hline.
  - intros before v after Hall. split_and!.
    + unfold Env.get_backend_url.
      assert (Env.read_lines (before ++ (Env.key +:+ v) :: after)
              = Some (Some (Env.strip v))) as ->; [|done].
      induction Hall as [|line lines Hline _ IH].
      * cbn [app Env.read_lines]. by rewrite prefix_key, split1_second_key.
      * cbn [app Env.read_lines]. by rewrite Hline.
    + intros c r Hs. unfold Env.strip in Hs.
      apply rstrip_first in Hs as [r' Hs]. by eapply lstrip_no_lead.
    + intros c. apply rstrip_last.
Qed.

(** ** The server on the sample library *)

#[local] Existing Instance Sample.library.

Example distance_examples :
  calculate_similarity "ff00ff00ff00ff00" "ff00ff00ff00ff00" = 0 /\
  calculate_similarity "8000000000000000" "0000000000000001" = 2 /\
  calculate_similarity "ff" "fff" = 64 /\
  calculate_similarity "" "" = 64 /\
  calculate_similarity "0x1f" "001F" = 0 /\
  calculate_similarity "f_f" "0fe" = 1 /\
  calculate_similarity " f" "0e" = 1.
Proof. by split_and!. Qed.

Example link_twice_example :
  (link_image_to_url Sample.env3 "https://c.example" Sample.png_a_again Sample.db2).1
    = inr (updated "Updated URL for existing image: None" "id-1" "https://c.example").
Proof. reflexivity. Qed.

(** The threshold is inclusive: the codes of [b.png] are at distance 4
    from those of [a.png]. *)
Example threshold_boundary :
  (exists message m,
     (scan_image_for_url Sample.png_b 4 Sample.db1).1 =
       inr (match_found message m "https://a.example" 1) /\
     distance m = 4 /\ similarity_percentage m = 60 /\ algorithm_used m = "dhash") /\
  (scan_image_for_url Sample.png_b 3 Sample.db1).1 = inr (no_match 1 3).
Proof. split; [eexists _, _; split_and!|]; reflexivity. Qed.

Example delete_twice_example :
  (delete_stored_image "id-1" Sample.db1).1 = inr "Image link deleted successfully" /\
  (delete_stored_image "id-1" (delete_stored_image "id-1" Sample.db1).2).1 =
    inl {| status_code := 404; detail := "Image not found" |}.
Proof. by split. Qed.

Lemma sample_db2_reachable : reachable Sample.db2.
Proof. unfold Sample.db2, Sample.db1. do 2 apply reachable_step. apply reachable_empty. Qed.

Lemma calculate_similarity_laws_witness :
  calculate_similarity "00ff" "0x_f" = 4 /\ 0 <= calculate_similarity "00ff" "0x_f".
Proof.
  split; [reflexivity|].
  destruct (calculate_similarity_laws "00ff" "0x_f") as (_ & Hnonneg & _).
  exact Hnonneg.
Defined.

Lemma scan_image_for_url_best_match_witness :
  exists result response,
    validate_and_process_image Sample.png_b = inr result /\
    scan_image_for_url Sample.png_b 4 Sample.db2 = (inr response, Sample.db2).
Proof.
  eexists. 
  assert (validate_and_process_image Sample.png_b = inr ?[r]) as Hv
    by (vm_compute; reflexivity).
  destruct (scan_image_for_url_best_match Sample.png_b 4 Sample.db2 _ Hv)
    as (response & Hscan & _).
  exists response. split; [exact Hv|exact Hscan].
Defined.

Lemma link_image_to_url_one_write_witness :
  exists result response db',
    validate_and_process_image Sample.png_a = inr result /\
    link_image_to_url Sample.env1 "https://a.example" Sample.png_a empty_db
      = (inr response, db') /\
    exists c, commands db' = commands empty_db ++ [c].
Proof.
  eexists.
  assert (validate_and_process_image Sample.png_a = inr ?[r]) as Hv
    by (vm_compute; reflexivity).
  destruct (link_image_to_url_one_write Sample.env1 "https://a.example"
              Sample.png_a empty_db _ Hv) as (response & db' & Hlink & Hc & _).
  exists response, db'. split_and!; [exact Hv|exact Hlink|exact Hc].
Defined.

Lemma reachable_unique_checksums_witness :
  reachable Sample.db2 /\ unique_checksums Sample.db2.
Proof.
  split; [exact sample_db2_reachable|].
  destruct (reachable_unique_checksums Sample.db2 sample_db2_reachable) as [Hunique _].
  exact Hunique.
Defined.

Lemma link_image_to_url_update_frame_witness :
  exists result existing message db' stored,
    validate_and_process_image Sample.png_a_again = inr result /\
    link_image_to_url Sample.env3 "https://c.example" Sample.png_a_again Sample.db2
      = (inr (updated message (id existing) "https://c.example"), db') /\
    image_links db' !! 0%nat = Some stored /\
    url stored = "https://c.example" /\
    filename stored = "a.png" /\
    image_links db' !! 1%nat = image_links Sample.db2 !! 1%nat.
Proof.
  eexists. eexists.
  assert (validate_and_process_image Sample.png_a_again = inr ?[r]) as Hv
    by (vm_compute; reflexivity).
  lazymatch type of Hv with
  | _ = inr ?r =>
      assert (list_find (fun d => file_hash d = res_file_hash r)
                (image_links Sample.db2) = Some (0%nat, ?[e])) as Hfind
        by (vm_compute; reflexivity)
  end.
  destruct (link_image_to_url_update_frame Sample.env3 "https://c.example"
              Sample.png_a_again Sample.db2 _ _ _ Hv Hfind)
    as (message & db' & stored & Hlink & _ & Hother & Hi & Hurl & _ & _ & Hname & _).
  exists message, db', stored.
  split_and!; [exact Hv|exact Hlink|exact Hi|exact Hurl| |].
  - rewrite Hname. reflexivity.
  - apply Hother. discriminate.
Defined.

Lemma link_image_to_url_validation_error_witness :
  exists e h,
    validate_and_process_image Sample.pdf = inl e /\
    e = EHTTP h /\
    link_image_to_url Sample.env3 "https://c.example" Sample.pdf Sample.db2
      = (inl h, Sample.db2).
Proof.
  eexists.
  assert (validate_and_process_image Sample.pdf = inl ?[e]) as Hv
    by (vm_compute; reflexivity).
  destruct (link_image_to_url_validation_error Sample.env3 "https://c.example"
              Sample.pdf Sample.db2 _ Hv) as (h & He & _ & Hlink).
  exists h. split_and!; [exact Hv|exact He|exact Hlink].
Defined.

Lemma scan_similarity_percentage_witness :
  exists message m redirect total,
    scan_image_for_url Sample.png_b 4 Sample.db1
      = (inr (match_found message m redirect total), Sample.db1) /\
    distance m = 4 /\
    similarity_percentage m = Z.max 0 (100 - distance m * 10).
Proof.
  eexists _, _, _, _.
  assert (scan_image_for_url Sample.png_b 4 Sample.db1
            = (inr (match_found ?[message] ?[m] ?[redirect] ?[total]), Sample.db1))
    as Hscan by (vm_compute; reflexivity).
  destruct (scan_similarity_percentage _ _ _ _ _ _ _ _ Hscan) as [Hsim _].
  split_and!; [exact Hscan|reflexivity|exact Hsim].
Defined.

Lemma file_hash_of_raw_bytes_witness :
  exists result,
    validate_and_process_image Sample.png_a = inr result /\
    res_file_hash result = sha256_hexdigest (upload_content Sample.png_a).
Proof.
  eexists.
  assert (validate_and_process_image Sample.png_a = inr ?[r]) as Hv
    by (vm_compute; reflexivity).
  destruct (file_hash_of_raw_bytes Sample.png_a _ Hv) as [Hdigest _].
  split; [exact Hv|exact Hdigest].
Defined.

Lemma scan_negative_threshold_witness :
  -1 < 0 /\
  forall message m redirect total db',
    scan_image_for_url Sample.png_a (-1) Sample.db2 <>
      (inr (match_found message m redirect total), db').
Proof.
  split; [reflexivity|].
  destruct (scan_negative_threshold Sample.png_a (-1) Sample.db2) as [_ Hnever];
    [reflexivity|exact Hnever].
Defined.

(** ** The further properties on the sample library *)

Lemma validate_type_error_witness :
  validate_and_process_image Sample.pdf
    = raise_http 400 "Unable to determine file type".
Proof.
  destruct (validate_type_error Sample.pdf) as [[_ Hmask] _].
  - vm_compute. discriminate.
  - apply Hmask. intros (t & Ht & Hin). vm_compute in Ht.
    injection Ht as <-. revert Hin. apply (bool_decide_unpack _). vm_compute.
    reflexivity.
Defined.

Lemma validate_hashes_keys_witness :
  exists result,
    validate_and_process_image Sample.png_a = inr result /\
    is_Some (res_hashes result !! "whash").
Proof.
  eexists.
  assert (validate_and_process_image Sample.png_a = inr ?[r]) as Hv
    by (vm_compute; reflexivity).
  split; [exact Hv|].
  destruct (validate_hashes_keys Sample.png_a _ Hv) as [Hkeys _].
  apply (Hkeys "whash").
  apply (bool_decide_unpack _). vm_compute. reflexivity.
Defined.

Lemma calculate_similarity_triangle_witness :
  calculate_similarity "00ff" "0f0f"
    <= calculate_similarity "00ff" "zzzz" + calculate_similarity "zzzz" "0f0f".
Proof.
  apply (calculate_similarity_triangle "00ff" "zzzz" "0f0f").
  left. vm_compute. lia.
Defined.

Lemma calculate_similarity_hex_digits_witness :
  exists va vb,
    Py.int16 "fF00" = Some va /\ Py.int16 "0f0f" = Some vb /\
    calculate_similarity "fF00" "0f0f" = hamming 16 va vb.
Proof.
  destruct (calculate_similarity_hex_digits "fF00" "0f0f")
    as (va & vb & Ha & Hb & _ & _ & Hd).
  - repeat constructor; eexists; reflexivity.
  - repeat constructor; eexists; reflexivity.
  - discriminate.
  - reflexivity.
  - exists va, vb. split_and!; [exact Ha|exact Hb|exact Hd].
Defined.

Lemma scan_image_for_url_validation_error_witness :
  exists e h,
    validate_and_process_image Sample.truncated = inl e /\
    scan_image_for_url Sample.truncated 10 Sample.db2 = (inl h, Sample.db2).
Proof.
  eexists.
  assert (validate_and_process_image Sample.truncated = inl ?[e]) as Hv
    by (vm_compute; reflexivity).
  destruct (scan_image_for_url_validation_error Sample.truncated 10 Sample.db2 _ Hv)
    as (h & _ & _ & Hscan).
  exists h. split; [exact Hv|exact Hscan].
Defined.

Lemma scan_threshold_only_gates_witness :
  exists total,
    (scan_image_for_url Sample.png_b 3 Sample.db1).1 = inr (no_match total 3).
Proof.
  eexists.
  assert (scan_image_for_url Sample.png_b 4 Sample.db1
            = (inr (match_found ?[message] ?[m] ?[redirect] ?[total]), Sample.db1))
    as Hscan by (vm_compute; reflexivity).
  rewrite (scan_threshold_only_gates _ _ _ _ _ _ _ _ Hscan 3).
  reflexivity.
Defined.

Lemma scan_algorithm_used_witness :
  exists message m redirect total result i stored_image,
    scan_image_for_url Sample.png_b 4 Sample.db1
      = (inr (match_found message m redirect total), Sample.db1) /\
    validate_and_process_image Sample.png_b = inr result /\
    find_all Sample.db1 !! i = Some stored_image /\
    distance_under (res_hashes result) stored_image (algorithm_used m) (distance m).
Proof.
  eexists _, _, _, _.
  assert (scan_image_for_url Sample.png_b 4 Sample.db1
            = (inr (match_found ?[message] ?[m] ?[redirect] ?[total]), Sample.db1))
    as Hscan by (vm_compute; reflexivity).
  destruct (scan_algorithm_used _ _ _ _ _ _ _ _ Hscan)
    as (result & i & stored_image & Hv & Hi & _ & Hunder & _).
  exists result, i, stored_image.
  split_and!; [exact Hscan|exact Hv|exact Hi|exact Hunder].
Defined.

Lemma sample_id_known : "id-1" ∈ id <$> image_links Sample.db2.
Proof. apply (bool_decide_unpack _). vm_compute. reflexivity. Qed.

Lemma delete_stored_image_removes_first_witness :
  exists k d,
    image_links Sample.db2 !! k = Some d /\ id d = "id-1" /\
    (delete_stored_image "id-1" Sample.db2).1
      = inr "Image link deleted successfully".
Proof.
  destruct (delete_stored_image_removes_first "id-1" Sample.db2 sample_id_known)
    as (k & d & Hk & Hid & _ & Hok & _).
  exists k, d. split_and!; [exact Hk|exact Hid|exact Hok].
Defined.

Lemma link_image_to_url_keeps_documents_witness :
  exists d d',
    image_links Sample.db2 !! 0%nat = Some d /\
    image_links (link_image_to_url Sample.env3 "https://c.example"
                   Sample.png_a_again Sample.db2).2 !! 0%nat = Some d' /\
    id d' = id d /\ dhash d' = dhash d.
Proof.
  eexists.
  assert (image_links Sample.db2 !! 0%nat = Some ?[d]) as Hd
    by (vm_compute; reflexivity).
  destruct (link_image_to_url_keeps_documents Sample.env3 "https://c.example"
              Sample.png_a_again Sample.db2 0%nat _ Hd)
    as (d' & Hd' & Hid & _ & _ & _ & _ & Hdh & _).
  exists d'. split_and!; [exact Hd|exact Hd'|exact Hid|exact Hdh].
Defined.

Lemma link_then_delete_witness :
  image_links (delete_stored_image "id-1"
                 (link_image_to_url Sample.env1 "https://a.example"
                    Sample.png_a empty_db).2).2 = [].
Proof.
  assert (validate_and_process_image Sample.png_a = inr ?[r]) as Hv
    by (vm_compute; reflexivity).
  destruct (link_then_delete Sample.env1 "https://a.example"
              Sample.png_a empty_db _ Hv) as (_ & Hdocs & _).
  - reflexivity.
  - apply not_elem_of_nil.
  - exact Hdocs.
Defined.

Lemma link_then_list_witness :
  exists images entry,
    (get_stored_images Sample.db1).1 = inr (length images, images) /\
    entry ∈ images /\ si_url entry = "https://a.example".
Proof.
  assert (link_image_to_url Sample.env1 "https://a.example" Sample.png_a empty_db
          = (inr ?[response], Sample.db1)) as Hlink
    by (vm_compute; reflexivity).
  destruct (link_then_list _ _ _ _ _ _ Hlink)
    as (images & entry & Hlist & Hin & Hurl & _).
  - vm_compute. lia.
  - exists images, entry. split_and!; [exact Hlist|exact Hin|exact Hurl].
Defined.

Lemma reachable_documents_have_codes_witness :
  exists d, d ∈ image_links Sample.db2 /\ is_Some (dhash d).
Proof.
  assert (image_links Sample.db2 !! 0%nat = Some ?[d]) as Hd
    by (vm_compute; reflexivity).
  apply list_elem_of_lookup_2 in Hd.
  destruct (reachable_documents_have_codes Sample.db2 _ sample_db2_reachable Hd)
    as [Hdh _].
  eexists. split; [exact Hd|exact Hdh].
Defined.

Lemma scan_reachable_store_witness :
  exists m,
    0 <= distance m /\
    (scan_image_for_url Sample.png_a (distance m - 1) Sample.db2).1
      = inr (no_match (length (find_all Sample.db2)) (distance m - 1)).
Proof.
  assert (validate_and_process_image Sample.png_a = inr ?[r]) as Hv
    by (vm_compute; reflexivity).
  assert (image_links Sample.db2 <> []) as Hne by (vm_compute; discriminate).
  destruct (scan_reachable_store Sample.png_a Sample.db2 _ sample_db2_reachable
              Hne Hv) as (m & Hm & Hscan).
  exists m. split; [exact Hm|]. rewrite (Hscan (distance m - 1)).
  destruct (Z.leb_spec (distance m) (distance m - 1)) as [Hle|_]; [lia|reflexivity].
Defined.

Lemma link_then_scan_witness :
  exists m,
    (scan_image_for_url Sample.png_a_again 0
       (link_image_to_url Sample.env1 "https://a.example" Sample.png_a empty_db).2).1
      = inr (match_found ("Found matching image: " +:+ match_filename m) m
               (match_url m) 1) /\
    distance m = 0 /\ similarity_percentage m = 100.
Proof.
  assert (validate_and_process_image Sample.png_a = inr ?[r]) as Hv
    by (vm_compute; reflexivity).
  destruct (link_then_scan Sample.env1 "https://a.example" Sample.png_a empty_db _
              Sample.png_a_again 0 "dhash" "0000000000000003" Hv)
    as (m & Hscan & Hd & Hs & _).
  - reflexivity.
  - vm_compute. lia.
  - vm_compute. reflexivity.
  - eexists. vm_compute. reflexivity.
  - reflexivity.
  - lia.
  - exists m. rewrite Hscan. split_and!; [reflexivity|exact Hd|exact Hs].
Defined.

Lemma relink_keeps_matches_witness :
  match (scan_image_for_url Sample.png_b 4 Sample.db2).1,
        (scan_image_for_url Sample.png_b 4
           (link_image_to_url Sample.env3 "https://c.example"
              Sample.png_a_again Sample.db2).2).1 with
  | inr (match_found message m redirect total),
    inr (match_found message' m' redirect' total') =>
      same_but_url "https://c.example" m m' /\ message' = message /\
      total' = total /\ redirect' = match_url m'
  | inr (no_match total _), inr (no_match total' _) => total' = total
  | inl h, inl h' => h' = h
  | _, _ => False
  end.
Proof.
  assert (validate_and_process_image Sample.png_a_again = inr ?[r]) as Hv
    by (vm_compute; reflexivity).
  lazymatch type of Hv with
  | _ = inr ?r =>
      assert (find_one (res_file_hash r) Sample.db2 = Some ?[e]) as Hfind
        by (vm_compute; reflexivity)
  end.
  exact (relink_keeps_matches Sample.env3 "https://c.example" Sample.png_a_again
           Sample.db2 _ _ Sample.png_b 4 Hv Hfind).
Defined.

